(** * read_cdc: frame synchronizer of the V2S200DZ vibration-sensor reader

    A shallow embedding of [src/read_cdc.c].  The program reads 32-bit words
    from a USB CDC tty into a 1253-word frame buffer, looks for the
    start-of-frame word in slot 0, accumulates until the last word of a read
    is the end-of-frame word, and then prints one CSV row per sample.

    Conventions of the embedding.
    - An [int32_t] is a [Z] in [-2^31, 2^31); [uint32_t] and [uint64_t]
      arithmetic is written with its wrap-around ([mod 2^32], [mod 2^64]).
    - The tty delivers whole 4-byte words.  A call of [read] is answered by
      an [offer]: either the call fails (returns -1) or some number of words
      is ready, of which [read] takes at most the requested count.
    - [fprintf] to the CSV file and to [stderr] appends a structured line to
      the corresponding log; [nanosleep] adds to a sleep counter.
    - The [while(1)] loop runs once per offer; when the offers are used up the
      embedding returns the machine as it stands at the next [read]. *)

From Stdlib Require Import String Ascii ZArith List Bool Lia.
Import ListNotations.
Local Open Scope Z_scope.

(** ** Constants (lines 10-15) *)

(** [0x55555555] fits an [int]. *)
Definition USB_SOF : Z := 0x55555555.
(** [0xAAAAAAAA] is an [unsigned int] literal. *)
Definition USB_EOF : Z := 0xAAAAAAAA.
Definition N_FRAME_DATA : Z := 1250.
Definition FRAME_TOTAL_INTS : Z := 1253.
Definition FRAME_INTERVAL : Z := 100.

Definition EXIT_SUCCESS : Z := 0.
Definition EXIT_FAILURE : Z := 1.

(** Values of [<signal.h>] on Linux. *)
Definition SIGINT : Z := 2.
Definition SIGTERM : Z := 15.

(** ** Integer conversions *)

Definition to_uint32 (x : Z) : Z := x mod 2^32.
Definition to_uint64 (x : Z) : Z := x mod 2^64.
(** Conversion to [int32_t]: reduction modulo 2^32 into the signed range. *)
Definition to_int32 (x : Z) : Z := (x + 2^31) mod 2^32 - 2^31.
(** Conversion to [size_t] (64-bit). *)
Definition to_size_t (x : Z) : Z := x mod 2^64.

(** [(int32_t)USB_EOF], the value the last word of a read is compared with. *)
Definition USB_EOF_i32 : Z := Eval cbv in to_int32 USB_EOF.

(** ** Output lines *)

(** Lines printed to [fcsv]: the header of line 141 and the rows of line 204
    ([%lu,%d]: a [uint64_t] time in microseconds and an [int32_t] sample). *)
Inductive csv_line : Type :=
| CsvHeader
| CsvRow (timestamp : Z) (data : Z).

(** Lines printed to [stderr] inside the loop. *)
Inductive diag : Type :=
| ErrReadTty                                     (* line 148 *)
| ErrFrameLength (expected : Z)                  (* line 174 *)
| WarnSizeMismatch (ts : Z) (got expected : Z)   (* line 185: %u, %ld, %d *)
| WarnIntervalMismatch (expected got : Z).       (* line 194: %d, %d *)

Definition is_interval_warning (d : diag) : bool :=
  match d with WarnIntervalMismatch _ _ => true | _ => false end.

Definition is_length_error (d : diag) : bool :=
  match d with ErrFrameLength _ => true | _ => false end.

Definition row_data (l : csv_line) : option Z :=
  match l with CsvRow _ d => Some d | CsvHeader => None end.

Definition row_time (l : csv_line) : option Z :=
  match l with CsvRow t _ => Some t | CsvHeader => None end.

(** ** The signal handler (lines 30-43) *)

(** A stdio stream: what has reached the file and what is still buffered. *)
Record FILE : Type := mkFILE {
  on_disk : list csv_line;
  buffered : list csv_line
}.

Definition fflush (f : FILE) : FILE :=
  {| on_disk := on_disk f ++ buffered f; buffered := [] |}.

(** [fclose] writes out what is buffered and gives back the file contents. *)
Definition fclose (f : FILE) : list csv_line := on_disk (fflush f).

(** The process after [exit]: the global [fcsv], the contents of the files
    closed by the handler, and the status seen by the parent. *)
Record exited : Type := mkExited {
  ex_fcsv : option FILE;
  ex_closed : option (list csv_line);
  ex_status : Z
}.

(** The status a parent gets from [exit(c)] is [c & 0377]. *)
Definition exit_status (c : Z) : Z := Z.land c 255.

Definition handle_signal (sig : Z) (fcsv : option FILE) : exited :=
  match fcsv with
  | Some f =>
      let f := fflush f in
      {| ex_fcsv := None;
         ex_closed := Some (fclose f);
         ex_status := exit_status (128 + sig) |}
  | None =>
      {| ex_fcsv := None;
         ex_closed := None;
         ex_status := exit_status (128 + sig) |}
  end.

(** ** The tty *)

(** What the device has for one call of [read]. *)
Inductive offer : Type :=
| ReadError          (* the call fails and returns -1 *)
| Ready (k : nat).   (* k whole words are waiting *)

(** [read(tty_fd, read_ptr, count)]: the return value in bytes, the words
    stored at [read_ptr], and the words left in the device. *)
Definition tty_read (o : offer) (tty : list Z) (count : Z)
  : Z * list Z * list Z :=
  match o with
  | ReadError => (-1, [], tty)
  | Ready k =>
      let m := Nat.min k (Z.to_nat (count / 4)) in
      let ws := firstn m tty in
      (4 * Z.of_nat (length ws), ws, skipn m tty)
  end.

(** ** The machine of [main] (lines 129-141) *)

Inductive STATE_t : Type :=
| STATE_FIND_SOF
| STATE_FIND_EOF.

Record machine : Type := mkMachine {
  frame_buff : list Z;           (* the calloc'ed 1253 words *)
  read_off : Z;                  (* read_ptr - frame_buff *)
  state : STATE_t;
  last_frame_timestamp : Z;      (* the static uint32_t of line 189 *)
  csv : list csv_line;           (* lines printed to fcsv, oldest first *)
  err : list diag;               (* lines printed to stderr, oldest first *)
  slept : Z;                     (* nanoseconds spent in nanosleep *)
  released : bool                (* free, close and fclose were called *)
}.

Definition init : machine :=
  {| frame_buff := repeat 0 (Z.to_nat FRAME_TOTAL_INTS);
     read_off := 0;
     state := STATE_FIND_SOF;
     last_frame_timestamp := 0;
     csv := [CsvHeader];
     err := [];
     slept := 0;
     released := false |}.

Definition set_buff (b : list Z) (m : machine) : machine :=
  mkMachine b (read_off m) (state m) (last_frame_timestamp m)
            (csv m) (err m) (slept m) (released m).
Definition set_off (p : Z) (m : machine) : machine :=
  mkMachine (frame_buff m) p (state m) (last_frame_timestamp m)
            (csv m) (err m) (slept m) (released m).
Definition set_state (s : STATE_t) (m : machine) : machine :=
  mkMachine (frame_buff m) (read_off m) s (last_frame_timestamp m)
            (csv m) (err m) (slept m) (released m).
Definition set_last (t : Z) (m : machine) : machine :=
  mkMachine (frame_buff m) (read_off m) (state m) t
            (csv m) (err m) (slept m) (released m).
Definition print_csv (ls : list csv_line) (m : machine) : machine :=
  mkMachine (frame_buff m) (read_off m) (state m) (last_frame_timestamp m)
            (csv m ++ ls) (err m) (slept m) (released m).
Definition print_err (ds : list diag) (m : machine) : machine :=
  mkMachine (frame_buff m) (read_off m) (state m) (last_frame_timestamp m)
            (csv m) (err m ++ ds) (slept m) (released m).
(** [nanosleep(&delay_time, NULL)] with [delay_time] of 1 ms. *)
Definition nanosleep (m : machine) : machine :=
  mkMachine (frame_buff m) (read_off m) (state m) (last_frame_timestamp m)
            (csv m) (err m) (slept m + 1000000) (released m).
(** [free(frame_buff); close(tty_fd); fclose(fcsv)] of lines 149-151. *)
Definition release (m : machine) : machine :=
  mkMachine (frame_buff m) (read_off m) (state m) (last_frame_timestamp m)
            (csv m) (err m) (slept m) true.

(** [frame_buff[i]] *)
Definition word_at (b : list Z) (i : Z) : Z := nth (Z.to_nat i) b 0.

(** The words a read stores at offset [p]. *)
Definition store (b : list Z) (p : Z) (ws : list Z) : list Z :=
  firstn (Z.to_nat p) b ++ ws ++ skipn (Z.to_nat p + length ws) b.

(** The byte count of line 145:
    [(FRAME_TOTAL_INTS - (read_ptr - frame_buff)) * sizeof(int32_t)]. *)
Definition read_count (m : machine) : Z :=
  to_size_t ((FRAME_TOTAL_INTS - read_off m) * 4).

(** ** Accepting a frame (lines 184-210) *)

(** The warning of lines 184-187. *)
Definition size_check (b : list Z) (p : Z) : list diag :=
  if negb (p + 1 =? FRAME_TOTAL_INTS)
  then [WarnSizeMismatch (to_uint32 (word_at b 1)) (p + 1) FRAME_TOTAL_INTS]
  else [].

(** The warning of lines 190-196; [%d] prints the interval as an [int]. *)
Definition interval_check (last ts : Z) : list diag :=
  if negb (last =? 0) then
    let interval := to_uint32 (ts - last) in
    if negb (interval =? FRAME_INTERVAL)
    then [WarnIntervalMismatch FRAME_INTERVAL (to_int32 interval)]
    else []
  else [].

(** The step of line 205: [(FRAME_INTERVAL * 1000) / (FRAME_TOTAL_INTS - 3)],
    an [int] division. *)
Definition sample_step : Z :=
  Z.quot (FRAME_INTERVAL * 1000) (FRAME_TOTAL_INTS - 3).

(** The [for] loop of lines 202-206, [k] iterations from index [i]. *)
Fixpoint print_data (k : nat) (i : Z) (data_timestamp : Z) (b : list Z)
  : list csv_line :=
  match k with
  | O => []
  | S k' =>
      CsvRow data_timestamp (word_at b i)
      :: print_data k' (i + 1) (to_uint64 (data_timestamp + sample_step)) b
  end.

(** Line 201: a [uint32_t] times an [int] is an [unsigned int] product; it is
    widened to [uint64_t] afterwards. *)
Definition first_data_timestamp (b : list Z) : Z :=
  to_uint64 (to_uint32 (to_uint32 (word_at b 1) * 1000)).

Definition frame_rows_of_buff (b : list Z) : list csv_line :=
  print_data (Z.to_nat (FRAME_TOTAL_INTS - 1 - 2)) 2 (first_data_timestamp b) b.

Definition accept_frame (m : machine) : machine :=
  let b := frame_buff m in
  let m := print_err (size_check b (read_off m)) m in
  let ts := to_uint32 (word_at b 1) in
  let m := print_err (interval_check (last_frame_timestamp m) ts) m in
  let m := set_last ts m in
  let m := print_csv (frame_rows_of_buff b) m in
  set_state STATE_FIND_SOF (set_off 0 m).

(** ** One iteration of the loop (lines 142-212) *)

Inductive outcome : Type :=
| Running (m : machine)                 (* back at the top of the loop *)
| Exited (status : Z) (m : machine).    (* main returned *)

Definition machine_of (r : outcome) : machine :=
  match r with Running m => m | Exited _ m => m end.

(** Lines 167-211, entered with [state == STATE_FIND_EOF]. *)
Definition find_eof (n : Z) (m : machine) : machine :=
  let m := set_off (read_off m + (n - 1)) m in
  if negb (word_at (frame_buff m) (read_off m) =? USB_EOF_i32) then
    if read_off m >=? FRAME_TOTAL_INTS then
      set_state STATE_FIND_SOF
        (set_off 0 (print_err [ErrFrameLength FRAME_TOTAL_INTS] m))
    else
      nanosleep (set_off (read_off m + 1) m)
  else
    accept_frame m.

(** Lines 146-211 once [read] has returned [ret] and stored its words. *)
Definition after_read (ret : Z) (m : machine) : outcome :=
  let n := Z.quot ret 4 in
  if n <? 0 then
    Exited EXIT_FAILURE (release (print_err [ErrReadTty] m))
  else if n =? 0 then
    Running (nanosleep m)
  else
    match state m with
    | STATE_FIND_SOF =>
        if negb (word_at (frame_buff m) (read_off m) =? USB_SOF)
        then Running m
        else Running (find_eof n (set_state STATE_FIND_EOF m))
    | STATE_FIND_EOF => Running (find_eof n m)
    end.

Definition loop_iter (o : offer) (tty : list Z) (m : machine)
  : outcome * list Z :=
  let '(ret, ws, tty') := tty_read o tty (read_count m) in
  (after_read ret (set_buff (store (frame_buff m) (read_off m) ws) m), tty').

(** The [while(1)] loop, one iteration per offer. *)
Fixpoint main_loop (sched : list offer) (tty : list Z) (m : machine)
  : outcome * list Z :=
  match sched with
  | [] => (Running m, tty)
  | o :: sched' =>
      match loop_iter o tty m with
      | (Running m', tty') => main_loop sched' tty' m'
      | (Exited s m', tty') => (Exited s m', tty')
      end
  end.

(** ** Frames as the device sends them *)

Record frame : Type := mkFrame {
  f_timestamp : Z;      (* the word after SOF *)
  f_data : list Z       (* the 1250 samples *)
}.

Definition frame_words (f : frame) : list Z :=
  USB_SOF :: f_timestamp f :: f_data f ++ [USB_EOF_i32].

(** A frame has 1250 samples, and neither its timestamp word nor a sample is
    the end-of-frame word. *)
Definition frame_ok (f : frame) : bool :=
  (length (f_data f) =? Z.to_nat N_FRAME_DATA)%nat
  && negb (f_timestamp f =? USB_EOF_i32)
  && forallb (fun w => negb (w =? USB_EOF_i32)) (f_data f).

(** The rows a frame stands for in the file, as the loop prints them. *)
Definition frame_rows (f : frame) : list csv_line :=
  frame_rows_of_buff (frame_words f).


(** ** Invariant of the loop *)

(** What holds of the machine every time the loop reaches [read]. *)
Definition inv (m : machine) : Prop :=
  0 <= read_off m <= FRAME_TOTAL_INTS
  /\ length (frame_buff m) = Z.to_nat FRAME_TOTAL_INTS
  /\ (state m = STATE_FIND_SOF -> read_off m = 0).

(** The number of words a read takes when [k] are offered. *)
Definition taken (k : nat) (tty : list Z) (m : machine) : nat :=
  Nat.min k (Nat.min (Z.to_nat (FRAME_TOTAL_INTS - read_off m)) (length tty)).

(** The buffer after that read. *)
Definition buff_after (k : nat) (tty : list Z) (m : machine) : list Z :=
  store (frame_buff m) (read_off m) (firstn (taken k tty m) tty).

(** The four ways an iteration can go when [k] words are offered. *)
Inductive iter_case (k : nat) (tty : list Z) (m : machine)
  : machine -> list Z -> Prop :=
| IterIdle :
    taken k tty m = O ->
    iter_case k tty m (nanosleep m) tty
| IterDiscard :
    (0 < taken k tty m)%nat ->
    state m = STATE_FIND_SOF ->
    word_at (buff_after k tty m) (read_off m) <> USB_SOF ->
    iter_case k tty m (set_buff (buff_after k tty m) m)
              (skipn (taken k tty m) tty)
| IterAccumulate :
    (0 < taken k tty m)%nat ->
    (state m = STATE_FIND_SOF ->
     word_at (buff_after k tty m) (read_off m) = USB_SOF) ->
    word_at (buff_after k tty m) (read_off m + (Z.of_nat (taken k tty m) - 1))
      <> USB_EOF_i32 ->
    iter_case k tty m
      (nanosleep
         (set_off (read_off m + (Z.of_nat (taken k tty m) - 1) + 1)
            (set_state STATE_FIND_EOF (set_buff (buff_after k tty m) m))))
      (skipn (taken k tty m) tty)
| IterAccept :
    (0 < taken k tty m)%nat ->
    (state m = STATE_FIND_SOF ->
     word_at (buff_after k tty m) (read_off m) = USB_SOF) ->
    word_at (buff_after k tty m) (read_off m + (Z.of_nat (taken k tty m) - 1))
      = USB_EOF_i32 ->
    iter_case k tty m
      (accept_frame
         (set_off (read_off m + (Z.of_nat (taken k tty m) - 1))
            (set_state STATE_FIND_EOF (set_buff (buff_after k tty m) m))))
      (skipn (taken k tty m) tty).

(** The machine with [d] more nanoseconds slept, and the machine with the
    sleep counter left out: what of it the synchronizer and the outputs see. *)
Definition add_sleep (d : Z) (m : machine) : machine :=
  mkMachine (frame_buff m) (read_off m) (state m) (last_frame_timestamp m)
            (csv m) (err m) (slept m + d) (released m).

Definition forget_sleep (m : machine) : machine :=
  mkMachine (frame_buff m) (read_off m) (state m) (last_frame_timestamp m)
            (csv m) (err m) 0 (released m).

(** ** Following a frame through the loop *)

(** The loop is at [read] with slot 0 next and nothing of a frame held. *)
Definition at_start (m : machine) : Prop :=
  read_off m = 0 /\ state m = STATE_FIND_SOF
  /\ length (frame_buff m) = Z.to_nat FRAME_TOTAL_INTS.

(** The first [k] words of [ws] are in the buffer and the next read goes to
    slot [k]. *)
Definition holding (ws : list Z) (k : nat) (m : machine) : Prop :=
  read_off m = Z.of_nat k
  /\ length (frame_buff m) = Z.to_nat FRAME_TOTAL_INTS
  /\ firstn k (frame_buff m) = firstn k ws
  /\ (k = O -> state m = STATE_FIND_SOF)
  /\ (k <> O -> state m = STATE_FIND_EOF).

(** The same for the words of frame [f]. *)
Definition in_frame (f : frame) (k : nat) (m : machine) : Prop :=
  holding (frame_words f) k m.

(** Nothing was printed and the retained timestamp is the same. *)
Definition same_out (m m' : machine) : Prop :=
  csv m' = csv m /\ err m' = err m
  /\ last_frame_timestamp m' = last_frame_timestamp m.

(** [m'] is [m] after frame [f] went through whole. *)
Definition frame_done (f : frame) (m m' : machine) : Prop :=
  at_start m'
  /\ frame_buff m' = frame_words f
  /\ last_frame_timestamp m' = to_uint32 (f_timestamp f)
  /\ csv m' = csv m ++ frame_rows f
  /\ err m' = err m ++ interval_check (last_frame_timestamp m)
                                      (to_uint32 (f_timestamp f)).

(** The interval warnings of a run of frames, and the timestamp retained
    after it. *)
Fixpoint frames_err (last : Z) (fs : list frame) : list diag :=
  match fs with
  | [] => []
  | f :: fs' =>
      interval_check last (to_uint32 (f_timestamp f))
      ++ frames_err (to_uint32 (f_timestamp f)) fs'
  end.

Fixpoint frames_last (last : Z) (fs : list frame) : Z :=
  match fs with
  | [] => last
  | f :: fs' => frames_last (to_uint32 (f_timestamp f)) fs'
  end.

(** The words of frames sent back to back. *)
Definition frames_words (fs : list frame) : list Z :=
  concat (map frame_words fs).

(** ** Reading the CSV file back *)

(** The data column and the time column of the rows of a file. *)
Definition csv_samples (ls : list csv_line) : list Z :=
  flat_map (fun l => match row_data l with Some d => [d] | None => [] end) ls.

Definition csv_times (ls : list csv_line) : list Z :=
  flat_map (fun l => match row_time l with Some t => [t] | None => [] end) ls.

(** The rows of an accepted buffer in closed form: row [j] has the time
    [t0 + 80 * j] and the word of slot [2 + j]. *)
Definition rows_closed (t0 : Z) (b : list Z) : list csv_line :=
  map (fun j => CsvRow (t0 + 80 * Z.of_nat j) (word_at b (2 + Z.of_nat j)))
      (seq 0 1250).

(** A read that brings no word although it did not fail. *)
Definition is_zero_read (o : offer) : bool :=
  match o with Ready O => true | _ => false end.

Definition drop_zero_reads (sched : list offer) : list offer :=
  filter (fun o => negb (is_zero_read o)) sched.

(** No word of the noise is the start-of-frame word. *)
Definition noise_ok (noise : list Z) : bool :=
  forallb (fun w => negb (w =? USB_SOF)) noise.

(** ** Sample inputs *)

(** A payload of 1250 samples 1, 2, ..., 1250 and a frame carrying it. *)
Definition ramp : list Z := map Z.of_nat (seq 1 1250).

Definition ramp_frame (ts : Z) : frame := mkFrame ts ramp.

(** The payload condition the frame format asks for: 1250 samples, none of
    them a sentinel. *)
Definition payload_ok (f : frame) : bool :=
  (length (f_data f) =? Z.to_nat N_FRAME_DATA)%nat
  && forallb (fun w => negb (w =? USB_SOF) && negb (w =? USB_EOF_i32))
             (f_data f).

(** The start word and then 1253 zero words, with [rest] behind them. *)
Definition overrun_stream (rest : list Z) : list Z :=
  USB_SOF :: repeat 0 1253 ++ rest.

(** No word is the end-of-frame word. *)
Definition no_eof (ws : list Z) : bool :=
  forallb (fun w => negb (w =? USB_EOF_i32)) ws.

(** A stdio stream holding the header on disk and two rows in its buffer. *)
Definition open_csv : FILE :=
  {| on_disk := [CsvHeader];
     buffered := [CsvRow 100000 1; CsvRow 100080 2] |}.

(** ** Further invariants of the loop *)

(** The state and the offset say the same thing, and while a frame is being
    accumulated slot 0 holds the start word. *)
Definition sync_inv (m : machine) : Prop :=
  inv m
  /\ (state m = STATE_FIND_EOF ->
      1 <= read_off m /\ word_at (frame_buff m) 0 = USB_SOF).

Definition is_warning (d : diag) : bool :=
  match d with
  | WarnSizeMismatch _ _ _ | WarnIntervalMismatch _ _ => true
  | _ => false
  end.

(** The file is the header and then the rows of whole accepted buffers, and
    the messages are warnings, at most two per accepted buffer. *)
Definition outputs_inv (m : machine) (bufs : list (list Z)) : Prop :=
  csv m = CsvHeader :: concat (map frame_rows_of_buff bufs)
  /\ forallb is_warning (err m) = true
  /\ (length (err m) <= 2 * length bufs)%nat.

(** A buffer the loop has filled with one whole frame and is done with. *)
Definition after_ramp_frame : machine :=
  machine_of (fst (main_loop [Ready 1253] (frame_words (ramp_frame 100)) init)).

(** ** The command line (lines 24-28 and 45-63) *)

Record my_args_t : Type := mk_args {
  tty_dev : string;
  o_csv_file : string
}.

(** Lines 48-49. *)
Definition default_args : my_args_t :=
  {| tty_dev := "/dev/ttyACM0"; o_csv_file := "vibration_data.csv" |}.

Definition set_tty_dev (v : string) (a : my_args_t) : my_args_t :=
  {| tty_dev := v; o_csv_file := o_csv_file a |}.
Definition set_o_csv_file (v : string) (a : my_args_t) : my_args_t :=
  {| tty_dev := tty_dev a; o_csv_file := v |}.

(** How [parse_arg] ends. *)
Inductive parsed : Type :=
| Parsed (a : my_args_t)   (* the loop is done; line 62 prints [a] *)
| NullStrcmp               (* [strcmp] is handed [argv[argc]], a null pointer *)
| OutOfFuel.               (* the embedding ran out of iterations *)

(** One test [strcmp(argv[i], lit) == 0 && ++i < argc] of lines 53 and 57:
    its value and the [i] it leaves.  [argv[i]] is a string only for
    [i < argc]. *)
Definition flag_test (argv : list string) (lit : string) (i : nat)
  : option (bool * nat) :=
  match nth_error argv i with
  | None => None
  | Some s =>
      if String.eqb s lit
      then Some ((S i <? length argv)%nat, S i)
      else Some (false, i)
  end.

(** The [for] loop of lines 51-61, from index [i]. *)
Fixpoint parse_loop (fuel : nat) (argv : list string) (i : nat)
         (a : my_args_t) : parsed :=
  match fuel with
  | O => OutOfFuel
  | S fuel' =>
      if (i <? length argv)%nat then
        match flag_test argv "-p" i with
        | None => NullStrcmp
        | Some (true, i1) =>
            parse_loop fuel' argv (S i1)
                       (set_tty_dev (nth i1 argv EmptyString) a)
        | Some (false, i1) =>
            match flag_test argv "-o" i1 with
            | None => NullStrcmp
            | Some (true, i2) =>
                parse_loop fuel' argv (S i2)
                           (set_o_csv_file (nth i2 argv EmptyString) a)
            | Some (false, i2) => parse_loop fuel' argv (S i2) a
            end
        end
      else Parsed a
  end.

(** [parse_arg(argc, argv, &my_args)]; [argv] holds [argv[0]] too.  Every
    iteration raises [i], so [argc + 1] iterations are enough. *)
Definition parse_arg (argv : list string) : parsed :=
  parse_loop (S (length argv)) argv 1 default_args.

(** What a command line is made of, read from the left: a port option with
    its value, an output option with its value, or another word. *)
Inductive arg_item : Type :=
| PortOption (v : string)
| OutputOption (v : string)
| OtherWord (s : string).

Definition is_flag (s : string) : bool :=
  String.eqb s "-p" || String.eqb s "-o".

Definition item_words (t : arg_item) : list string :=
  match t with
  | PortOption v => ["-p"%string; v]
  | OutputOption v => ["-o"%string; v]
  | OtherWord s => [s]
  end.

Definition item_ok (t : arg_item) : bool :=
  match t with OtherWord s => negb (is_flag s) | _ => true end.

Definition apply_item (a : my_args_t) (t : arg_item) : my_args_t :=
  match t with
  | PortOption v => set_tty_dev v a
  | OutputOption v => set_o_csv_file v a
  | OtherWord _ => a
  end.

(** ** The serial port (lines 65-91) *)

(** Control-mode flags of [<termios.h>] on Linux (octal 060, 060, 0100,
    0200, 0400, 04000, 020000000000). *)
Definition CSIZE : Z := 0x30.
Definition CS8 : Z := 0x30.
Definition CSTOPB : Z := 0x40.
Definition CREAD : Z := 0x80.
Definition PARENB : Z := 0x100.
Definition CLOCAL : Z := 0x800.
Definition CRTSCTS : Z := 0x80000000.

(** The four flag words of [struct termios]; a [tcflag_t] is an
    [unsigned int]. *)
Record termios : Type := mk_termios {
  c_iflag : Z;
  c_oflag : Z;
  c_cflag : Z;
  c_lflag : Z
}.

(** [flags |= x] and [flags &= ~x] on a [tcflag_t]. *)
Definition flag_or (flags x : Z) : Z := to_uint32 (Z.lor flags x).
Definition flag_and_not (flags x : Z) : Z :=
  to_uint32 (Z.land flags (to_uint32 (Z.lnot x))).

(** Lines 76-81. *)
Definition set_cflag (c : Z) : Z :=
  let c := flag_or c (Z.lor CLOCAL CREAD) in
  let c := flag_and_not c CSIZE in
  let c := flag_or c CS8 in
  let c := flag_and_not c PARENB in
  let c := flag_and_not c CSTOPB in
  flag_and_not c CRTSCTS.

(** Lines 76-84: what [tcsetattr] is given, from what [tcgetattr] gave. *)
Definition raw_8n1 (t : termios) : termios :=
  {| c_iflag := 0; c_oflag := 0; c_cflag := set_cflag (c_cflag t);
     c_lflag := 0 |}.

(** The flags the code sets and the flags it clears. *)
Definition cflag_set : Z := Z.lor (Z.lor CLOCAL CREAD) CS8.
Definition cflag_cleared : Z :=
  Z.lor (Z.lor (Z.lor CSIZE PARENB) CSTOPB) CRTSCTS.

(** Lines printed to [stderr] before the loop. *)
Inductive setup_msg : Type :=
| MsgFailOpen (dev : string)   (* line 70 *)
| MsgFailTty                   (* line 111 *)
| MsgFailOutput                (* line 118 *)
| MsgFailAlloc.                (* line 132 *)

(** What [set_tty] leaves: the descriptor it returns, its message, the
    settings it gave to [tcsetattr] and whether [tcflush] emptied the input
    queue. *)
Record tty_setup : Type := mk_tty_setup {
  ts_fd : Z;
  ts_stderr : list setup_msg;
  ts_termios : option termios;
  ts_flushed : bool
}.

(** [set_tty(tty_dev)], where [open] returns [open_ret] and [tcgetattr]
    gives [t0]. *)
Definition set_tty (dev : string) (open_ret : Z) (t0 : termios) : tty_setup :=
  let tty_fd := open_ret in
  if tty_fd <? 0 then
    {| ts_fd := -1; ts_stderr := [MsgFailOpen dev]; ts_termios := None;
       ts_flushed := false |}
  else
    {| ts_fd := tty_fd; ts_stderr := []; ts_termios := Some (raw_8n1 t0);
       ts_flushed := true |}.

(** For a mask and a value below 2^32: bit by bit, whatever a flag word
    held, its image under lines 76-81 masked with [mask] is [v]. *)
Definition mask_check (mask v : Z) : bool :=
  forallb
    (fun i =>
       forallb
         (fun b =>
            Bool.eqb
              (((b && negb (Z.testbit cflag_cleared i))
                || Z.testbit cflag_set i) && Z.testbit mask i)
              (Z.testbit v i))
         [true; false])
    (map Z.of_nat (seq 0 32)).

(** ** Set-up in [main] (lines 99-141) *)

(** What the system answers while [main] sets up: the return value of
    [open], the settings [tcgetattr] reports, and whether [fopen] and
    [calloc] succeed. *)
Record sys : Type := mk_sys {
  sys_open : Z;
  sys_termios : termios;
  sys_fopen : bool;
  sys_calloc : bool
}.

(** What the process has printed and what it holds. *)
Record process : Type := mk_process {
  p_stdout : list my_args_t;     (* line 62 prints the two arguments *)
  p_stderr : list setup_msg;
  p_signals : list Z;            (* signals handled by handle_signal *)
  p_tty_fd : option Z;           (* the descriptor, while open *)
  p_termios : option termios;    (* the settings given to the port *)
  p_fcsv : option FILE;          (* the global fcsv *)
  p_buff : bool                  (* frame_buff is allocated *)
}.

Definition print_setup (msgs : list setup_msg) (p : process) : process :=
  mk_process (p_stdout p) (p_stderr p ++ msgs) (p_signals p) (p_tty_fd p)
             (p_termios p) (p_fcsv p) (p_buff p).
Definition close_tty (p : process) : process :=
  mk_process (p_stdout p) (p_stderr p) (p_signals p) None
             (p_termios p) (p_fcsv p) (p_buff p).
(** [if (fcsv) { fclose(fcsv); fcsv = NULL; }] *)
Definition close_fcsv (p : process) : process :=
  mk_process (p_stdout p) (p_stderr p) (p_signals p) (p_tty_fd p)
             (p_termios p) None (p_buff p).
Definition free_buff (p : process) : process :=
  mk_process (p_stdout p) (p_stderr p) (p_signals p) (p_tty_fd p)
             (p_termios p) (p_fcsv p) false.

(** How set-up ends. *)
Inductive started : Type :=
| StartUndefined                           (* parse_arg did not return *)
| StartFailed (status : Z) (p : process)   (* main returned before the loop *)
| StartLoop (p : process) (m : machine).   (* the loop is entered *)

(** Lines 101-141. *)
Definition main_setup (argv : list string) (s : sys) : started :=
  match parse_arg argv with
  | NullStrcmp | OutOfFuel => StartUndefined
  | Parsed my_args =>
      let p := mk_process [my_args] [] [SIGINT; SIGTERM] None None None
                          false in
      let t := set_tty (tty_dev my_args) (sys_open s) (sys_termios s) in
      let p := print_setup (ts_stderr t) p in
      if ts_fd t <? 0 then
        StartFailed EXIT_FAILURE (print_setup [MsgFailTty] p)
      else
        let p := mk_process (p_stdout p) (p_stderr p) (p_signals p)
                            (Some (ts_fd t)) (ts_termios t) (p_fcsv p)
                            (p_buff p) in
        if negb (sys_fopen s) then
          StartFailed EXIT_FAILURE (close_tty (print_setup [MsgFailOutput] p))
        else
          let p := mk_process (p_stdout p) (p_stderr p) (p_signals p)
                              (p_tty_fd p) (p_termios p)
                              (Some {| on_disk := []; buffered := [] |})
                              (p_buff p) in
          if negb (sys_calloc s) then
            StartFailed EXIT_FAILURE
              (close_fcsv (close_tty (print_setup [MsgFailAlloc] p)))
          else
            let p := mk_process (p_stdout p) (p_stderr p) (p_signals p)
                                (p_tty_fd p) (p_termios p)
                                (Some {| on_disk := [];
                                         buffered := csv init |})
                                true in
            StartLoop p init
  end.

(** How [main] stands after set-up and the reads of [sched]. *)
Inductive main_result : Type :=
| MainUndefined
| MainReturned (status : Z) (p : process)
| MainInLoop (p : process) (m : machine) (tty : list Z).

(** [main]: set-up, then the loop; lines 149-152 release what is held. *)
Definition main (argv : list string) (s : sys) (sched : list offer)
           (tty : list Z) : main_result :=
  match main_setup argv s with
  | StartUndefined => MainUndefined
  | StartFailed status p => MainReturned status p
  | StartLoop p m =>
      match main_loop sched tty m with
      | (Running m', tty') => MainInLoop p m' tty'
      | (Exited status m', _) =>
          MainReturned status (close_fcsv (close_tty (free_buff p)))
      end
  end.

(** A process that holds nothing. *)
Definition holds_nothing (p : process) : Prop :=
  p_tty_fd p = None /\ p_fcsv p = None /\ p_buff p = false.

(** ** What the reads offer *)

(** How far into a stream of [total] words that starts on a frame boundary
    the reads of [sched] get, from position [pos]: a read is asked for the
    rest of the 1253-word frame it stands in and returns what is offered of
    it, as far as words are left. *)
Fixpoint words_taken (sched : list offer) (pos total : nat) : nat :=
  match sched with
  | [] => pos
  | ReadError :: s => words_taken s pos total
  | Ready k :: s =>
      words_taken s
        (pos + Nat.min k (Nat.min (1253 - pos mod 1253) (total - pos)))
        total
  end.

(** The same while the start word is awaited: every read is asked for 1253
    words. *)
Fixpoint noise_taken (sched : list offer) (pos total : nat) : nat :=
  match sched with
  | [] => pos
  | ReadError :: s => noise_taken s pos total
  | Ready k :: s =>
      noise_taken s (pos + Nat.min k (Nat.min 1253 (total - pos))) total
  end.

(** The reads that offer at least one word. *)
Definition offers_words (o : offer) : bool :=
  match o with Ready (S _) => true | _ => false end.

Definition positive_reads (sched : list offer) : nat :=
  length (filter offers_words sched).

(** The buffers held each time an iteration made the file grow, in order. *)
Fixpoint accepted_buffers (sched : list offer) (tty : list Z) (m : machine)
  : list (list Z) :=
  match sched with
  | [] => []
  | o :: s =>
      let r := loop_iter o tty m in
      let m' := machine_of (fst r) in
      (if (length (csv m) <? length (csv m'))%nat then [frame_buff m'] else [])
      ++ accepted_buffers s (snd r) m'
  end.

(** * Properties *)

Example usb_eof_i32_value : USB_EOF_i32 = -1431655766.
Proof. reflexivity. Qed.

Example sample_step_value : sample_step = 80.
Proof. reflexivity. Qed.

(** ** Unfolding the setters *)

Lemma accept_frame_eq (m : machine) :
  accept_frame m =
  mkMachine (frame_buff m) 0 STATE_FIND_SOF
    (to_uint32 (word_at (frame_buff m) 1))
    (csv m ++ frame_rows_of_buff (frame_buff m))
    ((err m ++ size_check (frame_buff m) (read_off m))
     ++ interval_check (last_frame_timestamp m)
          (to_uint32 (word_at (frame_buff m) 1)))
    (slept m) (released m).
Proof. destruct m; reflexivity. Qed.

Ltac unfold_setters :=
  rewrite ?accept_frame_eq in *;
  unfold set_buff, set_off, set_state, set_last, print_csv,
    print_err, nanosleep, release in *; cbn [frame_buff read_off state
    last_frame_timestamp csv err slept released] in *.

(** ** The read *)

Section Read.

Variables (o : offer) (tty : list Z) (count : Z).

Lemma tty_read_ret :
  let '(ret, ws, _) := tty_read o tty count in
  ret = -1 /\ ws = [] \/ ret = 4 * Z.of_nat (length ws).
Proof.
  destruct o; cbn; [left | right]; auto.
Qed.

Lemma tty_read_split :
  let '(_, ws, tty') := tty_read o tty count in tty = ws ++ tty'.
Proof.
  destruct o; cbn; [reflexivity | symmetry; apply firstn_skipn].
Qed.

Lemma tty_read_bound :
  0 <= count ->
  let '(_, ws, _) := tty_read o tty count in
  Z.of_nat (length ws) <= count / 4.
Proof.
  intros Hc. destruct o; cbn.
  - apply Z.div_pos; lia.
  - rewrite length_firstn.
    assert (0 <= count / 4) by (apply Z.div_pos; lia). lia.
Qed.

End Read.

Lemma quot_read_ret (len : nat) : Z.quot (4 * Z.of_nat len) 4 = Z.of_nat len.
Proof. rewrite Z.mul_comm. apply Z.quot_mul. lia. Qed.

(** A failed read is not seen as one: [-1 / 4] is [0] in C. *)
Lemma quot_read_error : Z.quot (-1) 4 = 0.
Proof. reflexivity. Qed.

(** ** The loop never leaves through the error branch *)

Lemma after_read_running (ret : Z) (m : machine) :
  -1 <= ret -> exists m', after_read ret m = Running m'.
Proof.
  intros Hret. unfold after_read.
  assert (Hq : 0 <= Z.quot ret 4).
  { destruct (Z.eq_dec ret (-1)) as [-> | Hne]; [cbv; discriminate|].
    apply Z.quot_pos; lia. }
  destruct (Z.ltb_spec (Z.quot ret 4) 0) as [Hlt | _]; [lia|].
  destruct (Z.quot ret 4 =? 0); [eauto|].
  destruct (state m); [destruct (negb _)|]; eauto.
Qed.

Lemma loop_iter_running (o : offer) (tty : list Z) (m : machine) :
  exists m', fst (loop_iter o tty m) = Running m'.
Proof.
  unfold loop_iter.
  pose proof (tty_read_ret o tty (read_count m)) as Hr.
  destruct (tty_read o tty (read_count m)) as [[ret ws] tty'].
  cbn [fst]. apply after_read_running.
  destruct Hr as [[-> _] | ->]; lia.
Qed.

Lemma main_loop_running (sched : list offer) :
  forall tty m, exists m', fst (main_loop sched tty m) = Running m'.
Proof.
  induction sched as [|o sched IH]; intros tty m; cbn [main_loop].
  - exists m. reflexivity.
  - destruct (loop_iter_running o tty m) as [m1 H1].
    destruct (loop_iter o tty m) as [r tty1]. cbn [fst] in H1. subst r.
    apply IH.
Qed.

Lemma main_loop_cons (o : offer) (sched : list offer) tty m :
  main_loop (o :: sched) tty m =
  main_loop sched (snd (loop_iter o tty m))
            (machine_of (fst (loop_iter o tty m))).
Proof.
  cbn [main_loop].
  destruct (loop_iter_running o tty m) as [m1 H1].
  destruct (loop_iter o tty m) as [r tty1]. cbn [fst] in H1. subst r.
  reflexivity.
Qed.

Lemma main_loop_app (s1 s2 : list offer) :
  forall tty m,
    main_loop (s1 ++ s2) tty m =
    main_loop s2 (snd (main_loop s1 tty m))
              (machine_of (fst (main_loop s1 tty m))).
Proof.
  induction s1 as [|o s1 IH]; intros tty m.
  - reflexivity.
  - rewrite <- app_comm_cons, !main_loop_cons. apply IH.
Qed.

Lemma main_loop_pair (sched : list offer) tty m :
  main_loop sched tty m =
  (Running (machine_of (fst (main_loop sched tty m))),
   snd (main_loop sched tty m)).
Proof.
  destruct (main_loop_running sched tty m) as [m' H].
  destruct (main_loop sched tty m) as [r t]. cbn [fst] in H. subst r.
  reflexivity.
Qed.

(** ** The read of one iteration, under the invariant *)

Lemma firstn_min_length {A} (n : nat) (l : list A) :
  firstn (Nat.min n (length l)) l = firstn n l.
Proof.
  destruct (Nat.le_ge_cases n (length l)).
  - rewrite Nat.min_l by lia. reflexivity.
  - rewrite Nat.min_r by lia. rewrite !firstn_all2; auto.
Qed.

Lemma skipn_min_length {A} (n : nat) (l : list A) :
  skipn (Nat.min n (length l)) l = skipn n l.
Proof.
  destruct (Nat.le_ge_cases n (length l)).
  - rewrite Nat.min_l by lia. reflexivity.
  - rewrite Nat.min_r by lia. rewrite !skipn_all2; auto.
Qed.

Lemma read_count_inv (m : machine) :
  0 <= read_off m <= FRAME_TOTAL_INTS ->
  read_count m = (FRAME_TOTAL_INTS - read_off m) * 4.
Proof.
  unfold read_count, to_size_t, FRAME_TOTAL_INTS. intros H.
  apply Z.mod_small. lia.
Qed.

Lemma store_nil (b : list Z) (p : Z) : store b p [] = b.
Proof.
  unfold store. cbn [length app]. rewrite Nat.add_0_r. apply firstn_skipn.
Qed.

Lemma set_buff_same (m : machine) : set_buff (frame_buff m) m = m.
Proof. destruct m; reflexivity. Qed.

Lemma length_store (b ws : list Z) (p : Z) :
  (Z.to_nat p + length ws <= length b)%nat ->
  length (store b p ws) = length b.
Proof.
  intros H. unfold store.
  rewrite !length_app, length_firstn, length_skipn. lia.
Qed.

Lemma loop_iter_error (tty : list Z) (m : machine) :
  loop_iter ReadError tty m = (Running (nanosleep m), tty).
Proof.
  unfold loop_iter. cbn [tty_read]. rewrite store_nil, set_buff_same.
  reflexivity.
Qed.

Lemma loop_iter_ready (k : nat) (tty : list Z) (m : machine) :
  0 <= read_off m <= FRAME_TOTAL_INTS ->
  let n := taken k tty m in
  loop_iter (Ready k) tty m =
  (after_read (4 * Z.of_nat n)
     (set_buff (store (frame_buff m) (read_off m) (firstn n tty)) m),
   skipn n tty).
Proof.
  intros Hp n. unfold loop_iter, tty_read.
  rewrite (read_count_inv m Hp), Z.div_mul by lia.
  assert (Hf : firstn (Nat.min k (Z.to_nat (FRAME_TOTAL_INTS - read_off m))) tty
               = firstn n tty).
  { unfold n, taken. rewrite Nat.min_assoc. symmetry. apply firstn_min_length. }
  assert (Hs : skipn (Nat.min k (Z.to_nat (FRAME_TOTAL_INTS - read_off m))) tty
               = skipn n tty).
  { unfold n, taken. rewrite Nat.min_assoc. symmetry. apply skipn_min_length. }
  rewrite Hf, Hs. repeat f_equal.
  rewrite length_firstn. unfold n, taken. lia.
Qed.

Lemma after_read_zero (m : machine) : after_read 0 m = Running (nanosleep m).
Proof. reflexivity. Qed.

(** A read that brings nothing only sleeps. *)
Lemma loop_iter_idle (k : nat) (tty : list Z) (m : machine) :
  0 <= read_off m <= FRAME_TOTAL_INTS ->
  taken k tty m = O ->
  loop_iter (Ready k) tty m = (Running (nanosleep m), tty).
Proof.
  intros Hp H0. rewrite (loop_iter_ready k tty m Hp). cbv zeta. rewrite H0.
  cbn [firstn skipn Z.of_nat]. rewrite store_nil, set_buff_same. reflexivity.
Qed.

Lemma after_read_words (n : nat) (m : machine) :
  (0 < n)%nat ->
  after_read (4 * Z.of_nat n) m =
  match state m with
  | STATE_FIND_SOF =>
      if word_at (frame_buff m) (read_off m) =? USB_SOF
      then Running (find_eof (Z.of_nat n) (set_state STATE_FIND_EOF m))
      else Running m
  | STATE_FIND_EOF => Running (find_eof (Z.of_nat n) m)
  end.
Proof.
  intros Hn. unfold after_read. rewrite quot_read_ret.
  destruct (Z.ltb_spec (Z.of_nat n) 0); [lia|].
  destruct (Z.eqb_spec (Z.of_nat n) 0); [lia|].
  destruct (state m); [|reflexivity].
  destruct (_ =? USB_SOF); reflexivity.
Qed.

(** The overrun test of line 172 comes before the increment of line 179, and
    a read never ends beyond slot 1252. *)
Lemma find_eof_cases (n : Z) (m : machine) :
  read_off m + (n - 1) < FRAME_TOTAL_INTS ->
  find_eof n m =
  if word_at (frame_buff m) (read_off m + (n - 1)) =? USB_EOF_i32
  then accept_frame (set_off (read_off m + (n - 1)) m)
  else nanosleep (set_off (read_off m + (n - 1) + 1) m).
Proof.
  intros H. unfold find_eof. cbn [set_off read_off frame_buff].
  destruct (_ =? USB_EOF_i32); cbn [negb]; [reflexivity|].
  destruct (Z.geb_spec (read_off m + (n - 1)) FRAME_TOTAL_INTS); [lia|].
  reflexivity.
Qed.

Lemma set_state_same (m : machine) (s : STATE_t) :
  state m = s -> set_state s m = m.
Proof. destruct m; cbn; intros ->; reflexivity. Qed.

Lemma taken_bound (k : nat) (tty : list Z) (m : machine) :
  0 <= read_off m <= FRAME_TOTAL_INTS ->
  read_off m + Z.of_nat (taken k tty m) <= FRAME_TOTAL_INTS
  /\ (taken k tty m <= length tty)%nat /\ (taken k tty m <= k)%nat.
Proof. unfold taken. lia. Qed.

Lemma loop_iter_cases (k : nat) (tty : list Z) (m : machine) :
  0 <= read_off m <= FRAME_TOTAL_INTS ->
  exists m' tty',
    loop_iter (Ready k) tty m = (Running m', tty') /\ iter_case k tty m m' tty'.
Proof.
  intros Hp.
  destruct (Nat.eq_dec (taken k tty m) O) as [H0 | Hpos].
  - exists (nanosleep m), tty. split.
    + apply loop_iter_idle; assumption.
    + constructor; assumption.
  - assert (Hn : (0 < taken k tty m)%nat) by lia.
    pose proof (taken_bound k tty m Hp) as [Hb _].
    rewrite (loop_iter_ready k tty m Hp). cbv zeta.
    rewrite (after_read_words _ _ Hn).
    fold (buff_after k tty m).
    cbn [state set_buff frame_buff read_off].
    assert (Hlt : forall m0, read_off m0 = read_off m ->
              read_off m0 + (Z.of_nat (taken k tty m) - 1) < FRAME_TOTAL_INTS)
      by (intros m0 ->; lia).
    destruct (state m) eqn:Hst.
    + destruct (Z.eqb_spec (word_at (buff_after k tty m) (read_off m)) USB_SOF)
        as [Hsof | Hsof].
      * rewrite find_eof_cases by (apply Hlt; reflexivity).
        cbn [set_state set_buff frame_buff read_off].
        destruct (Z.eqb_spec
          (word_at (buff_after k tty m)
             (read_off m + (Z.of_nat (taken k tty m) - 1))) USB_EOF_i32).
        -- do 2 eexists; split; [reflexivity|].
           apply IterAccept; auto.
        -- do 2 eexists; split; [reflexivity|].
           apply IterAccumulate; auto.
      * do 2 eexists; split; [reflexivity|].
        apply IterDiscard; auto.
    + rewrite <- (set_state_same (set_buff (buff_after k tty m) m)
                    STATE_FIND_EOF) by exact Hst.
      rewrite find_eof_cases by (apply Hlt; reflexivity).
      cbn [set_state set_buff frame_buff read_off].
      destruct (Z.eqb_spec
          (word_at (buff_after k tty m)
             (read_off m + (Z.of_nat (taken k tty m) - 1))) USB_EOF_i32).
      * do 2 eexists; split; [reflexivity|].
        apply IterAccept; auto. intros; congruence.
      * do 2 eexists; split; [reflexivity|].
        apply IterAccumulate; auto. intros; congruence.
Qed.

(** ** The invariant is kept *)

Lemma inv_init : inv init.
Proof. unfold inv, init; cbn. repeat split; try lia; discriminate. Qed.

Lemma length_buff_after (k : nat) (tty : list Z) (m : machine) :
  inv m -> length (buff_after k tty m) = Z.to_nat FRAME_TOTAL_INTS.
Proof.
  intros (Hp & Hl & _). unfold buff_after.
  pose proof (taken_bound k tty m Hp) as (Hb & Ht & _).
  rewrite length_store; [assumption|].
  rewrite length_firstn, Hl. lia.
Qed.

Lemma iter_case_inv (k : nat) (tty : list Z) (m m' : machine) tty' :
  inv m -> iter_case k tty m m' tty' -> inv m'.
Proof.
  intros Hinv Hc.
  pose proof (length_buff_after k tty m Hinv) as Hl.
  destruct Hinv as (Hp & Hlen & Hs).
  pose proof (taken_bound k tty m Hp) as (Hb & _).
  destruct Hc; unfold inv; unfold_setters.
  - auto.
  - auto.
  - repeat split; try lia; try assumption. discriminate.
  - repeat split; try lia; assumption.
Qed.

Lemma loop_iter_inv (o : offer) (tty : list Z) (m : machine) :
  inv m -> inv (machine_of (fst (loop_iter o tty m))).
Proof.
  intros Hinv. destruct o as [|k].
  - rewrite loop_iter_error. exact Hinv.
  - destruct (loop_iter_cases k tty m (proj1 Hinv)) as (m' & tty' & -> & Hc).
    exact (iter_case_inv _ _ _ _ _ Hinv Hc).
Qed.

Lemma main_loop_inv (sched : list offer) :
  forall tty m, inv m -> inv (machine_of (fst (main_loop sched tty m))).
Proof.
  induction sched as [|o sched IH]; intros tty m Hinv.
  - exact Hinv.
  - rewrite main_loop_cons. apply IH, loop_iter_inv, Hinv.
Qed.

(** ** The overrun branch is never taken *)

Lemma size_check_no_length_error (b : list Z) (p : Z) :
  filter is_length_error (size_check b p) = [].
Proof. unfold size_check. destruct (negb _); reflexivity. Qed.

Lemma interval_check_no_length_error (l t : Z) :
  filter is_length_error (interval_check l t) = [].
Proof.
  unfold interval_check. destruct (negb _); [|reflexivity].
  destruct (negb _); reflexivity.
Qed.

Lemma iter_case_no_length_error (k : nat) (tty : list Z) (m m' : machine) tty' :
  iter_case k tty m m' tty' ->
  filter is_length_error (err m') = filter is_length_error (err m).
Proof.
  intros Hc. destruct Hc; unfold_setters; try reflexivity.
  rewrite !filter_app, size_check_no_length_error,
    interval_check_no_length_error, !app_nil_r.
  reflexivity.
Qed.

Lemma loop_iter_no_length_error (o : offer) (tty : list Z) (m : machine) :
  inv m ->
  filter is_length_error (err (machine_of (fst (loop_iter o tty m)))) =
  filter is_length_error (err m).
Proof.
  intros Hinv. destruct o as [|k].
  - rewrite loop_iter_error. reflexivity.
  - destruct (loop_iter_cases k tty m (proj1 Hinv)) as (m' & tty' & -> & Hc).
    exact (iter_case_no_length_error _ _ _ _ _ Hc).
Qed.

Lemma main_loop_no_length_error (sched : list offer) :
  forall tty m,
    inv m ->
    filter is_length_error (err (machine_of (fst (main_loop sched tty m)))) =
    filter is_length_error (err m).
Proof.
  induction sched as [|o sched IH]; intros tty m Hinv.
  - reflexivity.
  - rewrite main_loop_cons, IH by (apply loop_iter_inv, Hinv).
    apply loop_iter_no_length_error, Hinv.
Qed.

(** ** A full buffer without the end word: the loop sleeps for ever *)

Lemma nanosleep_add_sleep (m : machine) : nanosleep m = add_sleep 1000000 m.
Proof. reflexivity. Qed.

Lemma add_sleep_add_sleep (a b : Z) (m : machine) :
  add_sleep a (add_sleep b m) = add_sleep (b + a) m.
Proof. unfold add_sleep; cbn. f_equal. lia. Qed.

Lemma add_sleep_0 (m : machine) : add_sleep 0 m = m.
Proof. destruct m; unfold add_sleep; cbn. f_equal. lia. Qed.

Lemma loop_iter_full (o : offer) (tty : list Z) (m : machine) :
  read_off m = FRAME_TOTAL_INTS ->
  loop_iter o tty m = (Running (nanosleep m), tty).
Proof.
  intros Hfull. destruct o as [|k].
  - apply loop_iter_error.
  - apply loop_iter_idle.
    + rewrite Hfull. unfold FRAME_TOTAL_INTS. lia.
    + unfold taken. rewrite Hfull, Z.sub_diag. cbn. lia.
Qed.

Lemma main_loop_full (sched : list offer) :
  forall tty m,
    read_off m = FRAME_TOTAL_INTS ->
    main_loop sched tty m =
    (Running (add_sleep (1000000 * Z.of_nat (length sched)) m), tty).
Proof.
  induction sched as [|o sched IH]; intros tty m Hfull.
  - cbn. rewrite add_sleep_0. reflexivity.
  - rewrite main_loop_cons, loop_iter_full by assumption.
    cbn [fst snd machine_of]. rewrite IH by exact Hfull.
    rewrite nanosleep_add_sleep, add_sleep_add_sleep.
    do 3 f_equal. cbn [length]. lia.
Qed.

(** ** The words of a frame *)

Section FrameWords.

Variable f : frame.
Hypothesis Hok : frame_ok f = true.

Lemma frame_ok_parts :
  length (f_data f) = 1250%nat
  /\ f_timestamp f <> USB_EOF_i32
  /\ Forall (fun w => w <> USB_EOF_i32) (f_data f).
Proof.
  unfold frame_ok in Hok.
  apply andb_prop in Hok as [H12 H3]. apply andb_prop in H12 as [H1 H2].
  apply Nat.eqb_eq in H1. apply negb_true_iff, Z.eqb_neq in H2.
  repeat split; auto.
  apply Forall_forall. intros w Hw.
  rewrite forallb_forall in H3. specialize (H3 w Hw).
  apply negb_true_iff, Z.eqb_neq in H3. exact H3.
Qed.

Lemma frame_words_length : length (frame_words f) = 1253%nat.
Proof.
  destruct frame_ok_parts as (Hl & _).
  unfold frame_words. cbn [length]. rewrite length_app, Hl. reflexivity.
Qed.

Lemma frame_words_first : nth 0 (frame_words f) 0 = USB_SOF.
Proof. reflexivity. Qed.

Lemma frame_words_last : nth 1252 (frame_words f) 0 = USB_EOF_i32.
Proof.
  destruct frame_ok_parts as (Hl & _).
  unfold frame_words. change 1252%nat with (2 + 1250)%nat.
  cbn [nth Nat.add]. rewrite app_nth2 by lia. rewrite Hl. reflexivity.
Qed.

Lemma frame_words_not_eof (i : nat) :
  (i < 1252)%nat -> nth i (frame_words f) 0 <> USB_EOF_i32.
Proof.
  destruct frame_ok_parts as (Hl & Hts & Hd). intros Hi.
  unfold frame_words.
  destruct i as [|[|i]]; cbn [nth]; [discriminate | assumption |].
  rewrite app_nth1 by lia.
  rewrite Forall_forall in Hd. apply Hd, nth_In. lia.
Qed.

Lemma frame_words_data (i : nat) :
  (i < 1250)%nat -> nth (2 + i) (frame_words f) 0 = nth i (f_data f) 0.
Proof.
  destruct frame_ok_parts as (Hl & _). intros Hi.
  unfold frame_words. cbn [nth Nat.add]. apply app_nth1. lia.
Qed.

End FrameWords.

(** ** List facts for the buffer *)

Lemma firstn_add_skipn {A} (k n : nat) (l : list A) :
  firstn k l ++ firstn n (skipn k l) = firstn (k + n) l.
Proof.
  revert l. induction k as [|k IH]; intros l; [reflexivity|].
  destruct l as [|a l]; cbn.
  - rewrite firstn_nil. reflexivity.
  - f_equal. apply IH.
Qed.

Lemma word_at_of_nat (b : list Z) (i : nat) :
  word_at b (Z.of_nat i) = nth i b 0.
Proof. unfold word_at. rewrite Nat2Z.id. reflexivity. Qed.

Lemma nth_firstn_app {A} (i k : nat) (l r : list A) (d : A) :
  (i < k)%nat -> (k <= length l)%nat ->
  nth i (firstn k l ++ r) d = nth i l d.
Proof.
  intros Hi Hk. rewrite app_nth1 by (rewrite length_firstn; lia).
  rewrite nth_firstn. destruct (Nat.ltb_spec i k); [reflexivity | lia].
Qed.

(** ** One read inside a frame *)

Section FrameStep.

Variables (f : frame) (rest : list Z).
Hypothesis Hok : frame_ok f = true.

Let F := frame_words f.

Lemma in_frame_inv (k : nat) (m : machine) :
  (k < 1253)%nat -> in_frame f k m -> inv m.
Proof.
  intros Hk (Hp & Hl & _ & H0 & H1). unfold inv, FRAME_TOTAL_INTS.
  repeat split; try lia; try assumption.
  intros Hs. destruct k; [lia|]. rewrite H1 in Hs; [discriminate | lia].
Qed.

Lemma in_frame_taken (j k : nat) (m : machine) :
  (k < 1253)%nat -> in_frame f k m ->
  taken j (skipn k F ++ rest) m = Nat.min j (1253 - k).
Proof.
  intros Hk (Hp & _). unfold taken, FRAME_TOTAL_INTS.
  rewrite Hp, length_app, length_skipn. unfold F.
  rewrite (frame_words_length f Hok). lia.
Qed.

Lemma in_frame_buff_after (j k : nat) (m : machine) :
  (k < 1253)%nat -> in_frame f k m ->
  let n := Nat.min j (1253 - k) in
  buff_after j (skipn k F ++ rest) m =
  firstn (k + n) F ++ skipn (k + n) (frame_buff m).
Proof.
  intros Hk Hin n. unfold buff_after.
  rewrite (in_frame_taken j k m Hk Hin). fold n.
  destruct Hin as (Hp & Hl & Hpre & _).
  assert (HlF : length F = 1253%nat) by apply (frame_words_length f Hok).
  unfold store. rewrite Hp, Nat2Z.id, Hpre.
  rewrite firstn_app, length_skipn, HlF.
  replace (n - (1253 - k))%nat with O by lia.
  cbn [firstn]. rewrite app_nil_r, length_firstn, length_skipn, HlF.
  rewrite Nat.min_l by lia.
  rewrite app_assoc. fold F. rewrite firstn_add_skipn. reflexivity.
Qed.

Lemma in_frame_tty_after (j k : nat) :
  (k < 1253)%nat ->
  let n := Nat.min j (1253 - k) in
  skipn n (skipn k F ++ rest) = skipn (k + n) F ++ rest.
Proof.
  intros Hk n.
  assert (HlF : length F = 1253%nat) by apply (frame_words_length f Hok).
  rewrite skipn_app, length_skipn, HlF.
  replace (n - (1253 - k))%nat with O by lia.
  cbn [skipn]. rewrite skipn_skipn. f_equal. f_equal. lia.
Qed.

Lemma accept_whole_frame (m : machine) :
  frame_buff m = F ->
  frame_done f m
    (accept_frame (set_off (Z.of_nat 1252) (set_state STATE_FIND_EOF m))).
Proof.
  intros Hb. unfold frame_done, at_start. unfold_setters.
  rewrite Hb. unfold F at 1. rewrite (frame_words_length f Hok).
  repeat split.
  - change (size_check F (Z.of_nat 1252)) with (@nil diag).
    rewrite app_nil_r. reflexivity.
Qed.

Lemma frame_step (j k : nat) (m m' : machine) (tty' : list Z) :
  (k < 1253)%nat ->
  in_frame f k m ->
  iter_case j (skipn k F ++ rest) m m' tty' ->
  (exists k', (k <= k' < 1253)%nat /\ in_frame f k' m' /\ same_out m m'
              /\ tty' = skipn k' F ++ rest)
  \/ (frame_done f m m' /\ tty' = rest).
Proof.
  intros Hk Hin Hc.
  assert (HlF : length F = 1253%nat) by apply (frame_words_length f Hok).
  pose proof (in_frame_taken j k m Hk Hin) as Hn.
  pose proof (in_frame_buff_after j k m Hk Hin) as Hb. cbv zeta in Hb.
  pose proof (in_frame_tty_after j k Hk) as Ht. cbv zeta in Ht.
  set (n := Nat.min j (1253 - k)) in *.
  assert (Hword : forall i, (i < k + n)%nat ->
            word_at (buff_after j (skipn k F ++ rest) m) (Z.of_nat i)
            = nth i F 0).
  { intros i Hi. rewrite word_at_of_nat, Hb.
    apply nth_firstn_app; [assumption | lia]. }
  destruct Hin as (Hp & Hl & Hpre & H0 & H1).
  destruct Hc as [Hz | Hpos Hs Hw | Hpos Hs Hw | Hpos Hs Hw].
  - left. exists k. split; [lia|]. split; [|split; [|reflexivity]].
    + unfold in_frame, holding; unfold_setters. auto.
    + unfold same_out; unfold_setters. auto.
  - exfalso. apply Hw.
    assert (k = O) by (destruct k; [reflexivity | rewrite H1 in Hs by lia; discriminate]).
    subst k. rewrite Hp. rewrite Hword by lia. reflexivity.
  - rewrite Hn in *. rewrite Hp in *.
    replace (Z.of_nat k + (Z.of_nat n - 1)) with (Z.of_nat (k + n - 1)) in * by lia.
    rewrite Hword in Hw by lia.
    assert (Hlt : (k + n < 1253)%nat).
    { destruct (Nat.eq_dec (k + n - 1) 1252) as [E | E]; [|lia].
      exfalso. apply Hw. rewrite E. apply (frame_words_last f Hok). }
    left. exists (k + n)%nat. split; [lia|]. rewrite Ht.
    split; [|split; [|reflexivity]].
    + unfold in_frame, holding; unfold_setters. rewrite Hb.
      repeat split.
      * lia.
      * rewrite length_app, length_firstn, length_skipn. unfold FRAME_TOTAL_INTS in *. lia.
      * rewrite firstn_app, length_firstn, Nat.min_l by lia.
        rewrite Nat.sub_diag. cbn [firstn]. rewrite app_nil_r.
        rewrite firstn_firstn. f_equal. lia.
      * lia.
    + unfold same_out; unfold_setters. auto.
  - rewrite Hn in *. rewrite Hp in *.
    replace (Z.of_nat k + (Z.of_nat n - 1)) with (Z.of_nat (k + n - 1)) in * by lia.
    rewrite Hword in Hw by lia.
    assert (Heq : (k + n = 1253)%nat).
    { destruct (Nat.eq_dec (k + n - 1) 1252) as [E | E]; [lia|].
      exfalso. apply (frame_words_not_eof f Hok (k + n - 1)); [lia | exact Hw]. }
    right. rewrite Ht, Heq. split.
    + replace (k + n - 1)%nat with 1252%nat by lia.
      assert (HbF : buff_after j (skipn k F ++ rest) m = F).
      { rewrite Hb, Heq. rewrite firstn_all2 by lia.
        rewrite skipn_all2 by (unfold FRAME_TOTAL_INTS in *; lia).
        apply app_nil_r. }
      rewrite HbF.
      pose proof (accept_whole_frame (set_buff F m) eq_refl) as Hd.
      unfold frame_done in *. unfold_setters. exact Hd.
    + rewrite skipn_all2 by lia. reflexivity.
Qed.

End FrameStep.

(** ** A whole frame, however the reads cut it *)

Lemma same_out_refl (m : machine) : same_out m m.
Proof. unfold same_out; auto. Qed.

Lemma same_out_trans (m1 m2 m3 : machine) :
  same_out m1 m2 -> same_out m2 m3 -> same_out m1 m3.
Proof.
  unfold same_out. intros (A1 & A2 & A3) (B1 & B2 & B3).
  repeat split; congruence.
Qed.

Lemma frame_done_same_out (f : frame) (m1 m2 m' : machine) :
  same_out m1 m2 -> frame_done f m2 m' -> frame_done f m1 m'.
Proof.
  unfold same_out, frame_done.
  intros (A1 & A2 & A3) (B0 & B1 & B2 & B3 & B4).
  rewrite A1, A2, A3 in *. auto.
Qed.

Lemma in_frame_nanosleep (f : frame) (k : nat) (m : machine) :
  in_frame f k m -> in_frame f k (nanosleep m).
Proof. unfold in_frame, holding; unfold_setters; auto. Qed.

(** ** With nothing left to read the loop only sleeps *)

Lemma loop_iter_drained (o : offer) (m : machine) :
  0 <= read_off m <= FRAME_TOTAL_INTS ->
  loop_iter o [] m = (Running (nanosleep m), []).
Proof.
  intros Hp. destruct o as [|k]; [apply loop_iter_error|].
  apply loop_iter_idle; [assumption|]. unfold taken. cbn [length]. lia.
Qed.

Lemma main_loop_drained (sched : list offer) :
  forall m,
    0 <= read_off m <= FRAME_TOTAL_INTS ->
    main_loop sched [] m =
    (Running (add_sleep (1000000 * Z.of_nat (length sched)) m), []).
Proof.
  induction sched as [|o sched IH]; intros m Hp.
  - cbn. rewrite add_sleep_0. reflexivity.
  - rewrite main_loop_cons, loop_iter_drained by assumption.
    cbn [fst snd machine_of]. rewrite IH by exact Hp.
    rewrite nanosleep_add_sleep, add_sleep_add_sleep.
    do 3 f_equal. cbn [length]. lia.
Qed.

(** ** Frames back to back *)

Lemma at_start_in_frame (f : frame) (m : machine) :
  at_start m -> in_frame f 0 m.
Proof.
  intros (Hp & Hs & Hl). unfold in_frame, holding. repeat split; auto. lia.
Qed.


(** ** The rows of a frame *)

Lemma print_data_closed (k : nat) :
  forall (i t : Z) (b : list Z),
    0 <= t -> t + 80 * Z.of_nat k < 2^64 ->
    print_data k i t b =
    map (fun j => CsvRow (t + 80 * Z.of_nat j) (word_at b (i + Z.of_nat j)))
        (seq 0 k).
Proof.
  induction k as [|k IH]; intros i t b Ht Hb; [reflexivity|].
  cbn [print_data seq map].
  rewrite Z.mul_0_r, !Z.add_0_r. f_equal.
  change sample_step with 80. unfold to_uint64.
  rewrite Z.mod_small by lia.
  rewrite IH by lia.
  rewrite <- seq_shift, map_map. apply map_ext. intros j.
  f_equal; [lia | f_equal; lia].
Qed.

Lemma first_data_timestamp_eq (b : list Z) :
  first_data_timestamp b = (to_uint32 (word_at b 1) * 1000) mod 2^32.
Proof.
  unfold first_data_timestamp, to_uint64.
  set (x := to_uint32 (word_at b 1) * 1000). unfold to_uint32 at 1.
  pose proof (Z.mod_pos_bound x (2^32) ltac:(lia)).
  apply Z.mod_small. lia.
Qed.

Lemma frame_rows_of_buff_closed (b : list Z) :
  frame_rows_of_buff b = rows_closed (first_data_timestamp b) b.
Proof.
  unfold frame_rows_of_buff, rows_closed.
  change (Z.to_nat (FRAME_TOTAL_INTS - 1 - 2)) with 1250%nat.
  pose proof (first_data_timestamp_eq b) as E.
  pose proof (Z.mod_pos_bound (to_uint32 (word_at b 1) * 1000) (2^32)
                ltac:(lia)) as Hb.
  apply print_data_closed; lia.
Qed.

Lemma length_frame_rows_of_buff (b : list Z) :
  length (frame_rows_of_buff b) = 1250%nat.
Proof.
  rewrite frame_rows_of_buff_closed. unfold rows_closed.
  rewrite length_map, length_seq. reflexivity.
Qed.

Lemma csv_samples_app (l1 l2 : list csv_line) :
  csv_samples (l1 ++ l2) = csv_samples l1 ++ csv_samples l2.
Proof. apply flat_map_app. Qed.

Lemma csv_times_app (l1 l2 : list csv_line) :
  csv_times (l1 ++ l2) = csv_times l1 ++ csv_times l2.
Proof. apply flat_map_app. Qed.

Lemma csv_samples_rows {A} (g h : A -> Z) (l : list A) :
  csv_samples (map (fun j => CsvRow (g j) (h j)) l) = map h l.
Proof.
  induction l as [|a l IH]; [reflexivity|].
  cbn [map]. change (csv_samples (?x :: ?r)) with
    ((match row_data x with Some d => [d] | None => [] end) ++ csv_samples r).
  cbn [row_data app]. f_equal. exact IH.
Qed.

Lemma csv_times_rows {A} (g h : A -> Z) (l : list A) :
  csv_times (map (fun j => CsvRow (g j) (h j)) l) = map g l.
Proof.
  induction l as [|a l IH]; [reflexivity|].
  cbn [map]. change (csv_times (?x :: ?r)) with
    ((match row_time x with Some d => [d] | None => [] end) ++ csv_times r).
  cbn [row_time app]. f_equal. exact IH.
Qed.

Lemma map_nth_seq {A} (l : list A) (d : A) :
  map (fun j => nth j l d) (seq 0 (length l)) = l.
Proof.
  induction l as [|a l IH]; [reflexivity|].
  cbn [length seq map nth]. f_equal.
  rewrite <- seq_shift, map_map. exact IH.
Qed.

Lemma csv_samples_frame_rows (f : frame) :
  frame_ok f = true -> csv_samples (frame_rows f) = f_data f.
Proof.
  intros Hok. unfold frame_rows.
  rewrite frame_rows_of_buff_closed. unfold rows_closed.
  rewrite csv_samples_rows.
  destruct (frame_ok_parts f Hok) as (Hl & _).
  transitivity (map (fun j => nth j (f_data f) 0) (seq 0 (length (f_data f))));
    [|apply map_nth_seq].
  rewrite Hl.
  apply map_ext_in. intros j Hj. apply in_seq in Hj.
  replace (2 + Z.of_nat j) with (Z.of_nat (2 + j)) by lia.
  rewrite word_at_of_nat. apply frame_words_data; [assumption | lia].
Qed.

Lemma csv_samples_frames (fs : list frame) :
  forallb frame_ok fs = true ->
  csv_samples (concat (map frame_rows fs)) = concat (map f_data fs).
Proof.
  induction fs as [|f fs IH]; intros Hoks; [reflexivity|].
  cbn [forallb] in Hoks. apply andb_prop in Hoks as [Hok Hoks].
  cbn [map concat]. rewrite csv_samples_app, csv_samples_frame_rows, IH; auto.
Qed.

Lemma length_concat_data (fs : list frame) :
  forallb frame_ok fs = true ->
  length (concat (map f_data fs)) = (length fs * 1250)%nat.
Proof.
  induction fs as [|f fs IH]; intros Hoks; [reflexivity|].
  cbn [forallb] in Hoks. apply andb_prop in Hoks as [Hok Hoks].
  cbn [map concat length]. rewrite length_app, IH by assumption.
  destruct (frame_ok_parts f Hok) as (Hl & _). rewrite Hl. lia.
Qed.

Lemma csv_samples_rows_of_buff (b : list Z) :
  length b = Z.to_nat FRAME_TOTAL_INTS ->
  csv_samples (frame_rows_of_buff b) = firstn 1250 (skipn 2 b).
Proof.
  intros Hl. change (Z.to_nat FRAME_TOTAL_INTS) with 1253%nat in Hl.
  rewrite frame_rows_of_buff_closed. unfold rows_closed.
  rewrite csv_samples_rows.
  assert (Hlen : length (firstn 1250 (skipn 2 b)) = 1250%nat)
    by (rewrite length_firstn, length_skipn; lia).
  rewrite <- (map_nth_seq (firstn 1250 (skipn 2 b)) 0) at 1.
  rewrite Hlen. apply map_ext_in. intros j Hj. apply in_seq in Hj.
  replace (2 + Z.of_nat j) with (Z.of_nat (2 + j)) by lia.
  rewrite word_at_of_nat, nth_firstn, nth_skipn.
  destruct (Nat.ltb_spec j 1250); [reflexivity | lia].
Qed.

(** ** The sleep counter is seen by nothing *)

Lemma find_eof_forget (n : Z) (b : list Z) (p : Z) (st : STATE_t) (l : Z)
      (c : list csv_line) (e : list diag) (s1 s2 : Z) (r : bool) :
  forget_sleep (find_eof n (mkMachine b p st l c e s1 r)) =
  forget_sleep (find_eof n (mkMachine b p st l c e s2 r)).
Proof.
  unfold find_eof. unfold set_off at 1 3. cbn [frame_buff read_off].
  destruct (negb _).
  - destruct (_ >=? _); reflexivity.
  - rewrite !accept_frame_eq. reflexivity.
Qed.

Lemma after_read_forget (ret : Z) (m1 m2 : machine) :
  forget_sleep m1 = forget_sleep m2 ->
  forget_sleep (machine_of (after_read ret m1)) =
  forget_sleep (machine_of (after_read ret m2)).
Proof.
  destruct m1 as [b1 p1 st1 l1 c1 e1 s1 r1], m2 as [b2 p2 st2 l2 c2 e2 s2 r2].
  unfold forget_sleep at 1 2. cbn [frame_buff read_off state
    last_frame_timestamp csv err released].
  intros H. injection H as -> -> -> -> -> -> ->.
  unfold after_read.
  destruct (_ <? 0); [reflexivity|].
  destruct (_ =? 0); [reflexivity|].
  cbn [state frame_buff read_off].
  destruct st2.
  - destruct (negb _); [reflexivity|]. apply find_eof_forget.
  - apply find_eof_forget.
Qed.

Lemma forget_sleep_fields (m1 m2 : machine) :
  forget_sleep m1 = forget_sleep m2 ->
  frame_buff m1 = frame_buff m2 /\ read_off m1 = read_off m2.
Proof.
  unfold forget_sleep. intros H. injection H. auto.
Qed.

Lemma loop_iter_forget (o : offer) (tty : list Z) (m1 m2 : machine) :
  forget_sleep m1 = forget_sleep m2 ->
  forget_sleep (machine_of (fst (loop_iter o tty m1))) =
  forget_sleep (machine_of (fst (loop_iter o tty m2)))
  /\ snd (loop_iter o tty m1) = snd (loop_iter o tty m2).
Proof.
  intros H. destruct (forget_sleep_fields m1 m2 H) as (Hb & Hp).
  unfold loop_iter, read_count. rewrite Hb, Hp.
  destruct (tty_read o tty _) as [[ret ws] tty']. cbn [fst snd].
  split; [|reflexivity].
  apply after_read_forget.
  destruct m1, m2; unfold forget_sleep, set_buff in *; cbn in *.
  injection H as -> -> -> -> -> -> ->. reflexivity.
Qed.

Lemma main_loop_forget (sched : list offer) :
  forall (tty : list Z) (m1 m2 : machine),
    forget_sleep m1 = forget_sleep m2 ->
    forget_sleep (machine_of (fst (main_loop sched tty m1))) =
    forget_sleep (machine_of (fst (main_loop sched tty m2)))
    /\ snd (main_loop sched tty m1) = snd (main_loop sched tty m2).
Proof.
  induction sched as [|o sched IH]; intros tty m1 m2 H.
  - cbn. auto.
  - rewrite !main_loop_cons.
    destruct (loop_iter_forget o tty m1 m2 H) as (Hm & Ht).
    rewrite Ht. apply IH, Hm.
Qed.

(** A read of no words, whatever the machine. *)
Lemma loop_iter_zero_read (tty : list Z) (m : machine) :
  loop_iter (Ready 0) tty m = (Running (nanosleep m), tty).
Proof.
  unfold loop_iter. cbn [tty_read Nat.min firstn skipn length Z.of_nat].
  rewrite store_nil, set_buff_same. reflexivity.
Qed.

Lemma forget_sleep_nanosleep (m : machine) :
  forget_sleep (nanosleep m) = forget_sleep m.
Proof. reflexivity. Qed.

Lemma main_loop_drop_zero_reads (sched : list offer) :
  forall (tty : list Z) (m1 m2 : machine),
    forget_sleep m1 = forget_sleep m2 ->
    forget_sleep (machine_of (fst (main_loop (drop_zero_reads sched) tty m1))) =
    forget_sleep (machine_of (fst (main_loop sched tty m2)))
    /\ snd (main_loop (drop_zero_reads sched) tty m1) =
       snd (main_loop sched tty m2).
Proof.
  induction sched as [|o sched IH]; intros tty m1 m2 H.
  - cbn. auto.
  - unfold drop_zero_reads. cbn [filter]. fold (drop_zero_reads sched).
    destruct (is_zero_read o) eqn:Hz; cbn [negb].
    + destruct o as [|[|k]]; try discriminate.
      rewrite (main_loop_cons (Ready 0)), loop_iter_zero_read.
      cbn [fst snd machine_of]. apply IH.
      rewrite forget_sleep_nanosleep. exact H.
    + rewrite !main_loop_cons.
      destruct (loop_iter_forget o tty m1 m2 H) as (Hm & Ht).
      rewrite Ht. apply IH, Hm.
Qed.

(** ** Reads only take words away *)

Lemma loop_iter_tty_length (o : offer) (tty : list Z) (m : machine) :
  (length (snd (loop_iter o tty m)) <= length tty)%nat.
Proof.
  unfold loop_iter.
  pose proof (tty_read_split o tty (read_count m)) as Hs.
  destruct (tty_read o tty (read_count m)) as [[ret ws] tty'].
  cbn [snd]. rewrite Hs, length_app. lia.
Qed.

Lemma main_loop_tty_length (sched : list offer) :
  forall tty m, (length (snd (main_loop sched tty m)) <= length tty)%nat.
Proof.
  induction sched as [|o sched IH]; intros tty m.
  - cbn. lia.
  - rewrite main_loop_cons.
    etransitivity; [apply IH | apply loop_iter_tty_length].
Qed.

(** ** Noise in front of a frame *)

Lemma buff_after_head (k : nat) (w : Z) (tty : list Z) (m : machine) :
  read_off m = 0 ->
  (0 < taken k (w :: tty) m)%nat ->
  word_at (buff_after k (w :: tty) m) 0 = w.
Proof.
  intros Hp Hn. unfold buff_after, store, word_at. rewrite Hp.
  destruct (taken k (w :: tty) m); [lia|]. reflexivity.
Qed.

Lemma noise_ok_skipn (n : nat) (noise : list Z) :
  noise_ok noise = true -> noise_ok (skipn n noise) = true.
Proof.
  revert noise. induction n as [|n IH]; intros noise H; [exact H|].
  destruct noise as [|w noise]; [reflexivity|].
  cbn [skipn]. apply IH. cbn in H. apply andb_prop in H. apply H.
Qed.

Lemma at_start_inv (m : machine) : at_start m -> inv m.
Proof.
  intros (Hp & Hs & Hl). unfold inv. rewrite Hp. unfold FRAME_TOTAL_INTS.
  repeat split; auto; lia.
Qed.


(** ** A start word and no end word *)

Section Overrun.

Variable ws : list Z.
Hypothesis Hlen : (1253 <= length ws)%nat.
Hypothesis Hfirst : nth 0 ws 0 = USB_SOF.
Hypothesis Hnone : forall i, (i < 1253)%nat -> nth i ws 0 <> USB_EOF_i32.

Lemma holding_inv (k : nat) (m : machine) :
  (k <= 1253)%nat -> holding ws k m -> inv m.
Proof.
  intros Hk (Hp & Hl & _ & H0 & H1). unfold inv, FRAME_TOTAL_INTS.
  repeat split; try lia; try assumption.
  intros Hs. destruct k; [lia|]. rewrite H1 in Hs; [discriminate | lia].
Qed.

Lemma overrun_step (j k : nat) (m m' : machine) (tty' : list Z) :
  (k <= 1253)%nat ->
  holding ws k m ->
  iter_case j (skipn k ws) m m' tty' ->
  exists k', (k <= k' <= 1253)%nat /\ holding ws k' m' /\ same_out m m'
             /\ tty' = skipn k' ws.
Proof.
  intros Hk Hin Hc.
  destruct Hin as (Hp & Hl & Hpre & H0 & H1).
  assert (Hn : taken j (skipn k ws) m = Nat.min j (1253 - k)).
  { unfold taken, FRAME_TOTAL_INTS. rewrite Hp, length_skipn. lia. }
  set (n := Nat.min j (1253 - k)) in *.
  assert (Hb : buff_after j (skipn k ws) m
               = firstn (k + n) ws ++ skipn (k + n) (frame_buff m)).
  { unfold buff_after, store. rewrite Hn, Hp, Nat2Z.id, Hpre.
    rewrite length_firstn, length_skipn, Nat.min_l by lia.
    rewrite app_assoc, firstn_add_skipn. reflexivity. }
  assert (Hword : forall i, (i < k + n)%nat ->
            word_at (buff_after j (skipn k ws) m) (Z.of_nat i) = nth i ws 0).
  { intros i Hi. rewrite word_at_of_nat, Hb.
    apply nth_firstn_app; [assumption | lia]. }
  destruct Hc as [Hz | Hpos Hs Hw | Hpos Hs Hw | Hpos Hs Hw].
  - exists k. split; [lia|]. split; [|split; [|reflexivity]].
    + unfold holding; unfold_setters. auto.
    + unfold same_out; unfold_setters. auto.
  - exfalso. apply Hw.
    assert (k = O)
      by (destruct k; [reflexivity | rewrite H1 in Hs by lia; discriminate]).
    subst k. rewrite Hp, Hword by lia. exact Hfirst.
  - rewrite Hn in *. rewrite Hp in *.
    exists (k + n)%nat. split; [lia|]. rewrite skipn_skipn.
    split; [|split; [|f_equal; lia]].
    + unfold holding; unfold_setters. rewrite Hb.
      repeat split.
      * lia.
      * rewrite length_app, length_firstn, length_skipn.
        unfold FRAME_TOTAL_INTS in *. lia.
      * rewrite firstn_app, length_firstn, Nat.min_l by lia.
        rewrite Nat.sub_diag. cbn [firstn]. rewrite app_nil_r.
        rewrite firstn_firstn. f_equal. lia.
      * lia.
    + unfold same_out; unfold_setters. auto.
  - exfalso. rewrite Hn, Hp in Hw.
    replace (Z.of_nat k + (Z.of_nat n - 1)) with (Z.of_nat (k + n - 1)) in Hw
      by lia.
    rewrite Hword in Hw by lia.
    apply (Hnone (k + n - 1)%nat); [lia | exact Hw].
Qed.

Lemma overrun_run (sched : list offer) :
  forall (k : nat) (m : machine),
    (k <= 1253)%nat ->
    holding ws k m ->
    exists k', (k <= k' <= 1253)%nat
               /\ holding ws k' (machine_of (fst (main_loop sched (skipn k ws) m)))
               /\ same_out m (machine_of (fst (main_loop sched (skipn k ws) m)))
               /\ snd (main_loop sched (skipn k ws) m) = skipn k' ws.
Proof.
  induction sched as [|o sched IH]; intros k m Hk Hin.
  - exists k. cbn. repeat split; auto; try lia; apply Hin.
  - rewrite main_loop_cons. destruct o as [|j].
    + rewrite loop_iter_error. cbn [fst snd machine_of].
      destruct (IH k (nanosleep m) Hk) as (k' & Hk' & Hin' & Hso & Ht).
      { unfold holding in *; unfold_setters; exact Hin. }
      exists k'. repeat split; try lia; try apply Hin'; try apply Hso.
      exact Ht.
    + pose proof (holding_inv k m Hk Hin) as Hinv.
      destruct (loop_iter_cases j (skipn k ws) m (proj1 Hinv))
        as (m1 & tty1 & Hli & Hc).
      rewrite Hli. cbn [fst snd machine_of].
      destruct (overrun_step j k m m1 tty1 Hk Hin Hc)
        as (k1 & Hk1 & Hin1 & Hso1 & ->).
      destruct (IH k1 m1 (proj2 Hk1) Hin1) as (k' & Hk' & Hin' & Hso & Ht).
      exists k'. split; [lia|]. split; [exact Hin'|].
      split; [exact (same_out_trans _ _ _ Hso1 Hso) | exact Ht].
Qed.

End Overrun.

(** ** What the reads offer, and what the loop takes *)

Lemma words_taken_bounds (sched : list offer) :
  forall pos total,
    (pos <= total)%nat ->
    (pos <= words_taken sched pos total <= total)%nat.
Proof.
  induction sched as [|o sched IH]; intros pos total Hp; cbn [words_taken].
  - lia.
  - destruct o as [|k]; [apply IH, Hp|].
    set (n := Nat.min k (Nat.min (1253 - pos mod 1253) (total - pos))).
    assert (Hn : (n <= total - pos)%nat) by (unfold n; lia).
    specialize (IH (pos + n)%nat total ltac:(lia)). lia.
Qed.

Lemma words_taken_end (sched : list offer) (total : nat) :
  words_taken sched total total = total.
Proof.
  pose proof (words_taken_bounds sched total total (Nat.le_refl _)). lia.
Qed.

Lemma words_taken_shift (sched : list offer) :
  forall pos total,
    words_taken sched (pos + 1253) (total + 1253)
    = (1253 + words_taken sched pos total)%nat.
Proof.
  induction sched as [|o sched IH]; intros pos total; cbn [words_taken].
  - lia.
  - destruct o as [|k]; [apply IH|].
    replace ((pos + 1253) mod 1253)%nat with (pos mod 1253)%nat
      by (rewrite <- (Nat.Div0.mod_add pos 1 1253); f_equal; lia).
    replace (total + 1253 - (pos + 1253))%nat with (total - pos)%nat by lia.
    rewrite <- IH. f_equal. lia.
Qed.

(** Reads that each offer a word, as many as there are words left, take
    them all. *)
Lemma enough_reads_take_all (sched : list offer) :
  forall pos total,
    (pos <= total)%nat ->
    (total <= pos + positive_reads sched)%nat ->
    words_taken sched pos total = total.
Proof.
  induction sched as [|o sched IH]; intros pos total Hp Hen;
    cbn [words_taken].
  - cbn in Hen. lia.
  - destruct o as [|[|k]].
    + apply IH; [exact Hp | exact Hen].
    + cbn [Nat.min]. rewrite Nat.add_0_r. apply IH; [exact Hp | exact Hen].
    + unfold positive_reads in *. cbn [filter offers_words length] in Hen.
      pose proof (Nat.mod_upper_bound pos 1253 ltac:(lia)) as Hm.
      set (n := Nat.min (S k) (Nat.min (1253 - pos mod 1253) (total - pos))).
      destruct (Nat.eq_dec pos total) as [-> | Hne].
      * replace (total + n)%nat with total by (unfold n; lia).
        apply words_taken_end.
      * assert (Hn : (1 <= n <= total - pos)%nat) by (unfold n; lia).
        apply IH; lia.
Qed.

Lemma iter_case_tty (k : nat) (tty : list Z) (m m' : machine) tty' :
  iter_case k tty m m' tty' -> tty' = skipn (taken k tty m) tty.
Proof.
  intros Hc. destruct Hc as [Hz | | |]; try reflexivity.
  rewrite Hz. reflexivity.
Qed.

Lemma skipn_frame_app (f : frame) (k : nat) (rest : list Z) :
  frame_ok f = true -> (k <= 1253)%nat ->
  skipn k (frame_words f ++ rest) = skipn k (frame_words f) ++ rest.
Proof.
  intros Hok Hk. rewrite skipn_app, (frame_words_length f Hok).
  replace (k - 1253)%nat with O by lia. reflexivity.
Qed.

(** Frames back to back: the loop takes exactly the words the reads offer,
    and has printed the rows and run the checks of the frames it has taken
    whole. *)
Lemma frames_follow (sched : list offer) :
  forall (f : frame) (fs : list frame) (k : nat) (m : machine),
    frame_ok f = true ->
    forallb frame_ok fs = true ->
    (k < 1253)%nat ->
    in_frame f k m ->
    let R := main_loop sched (skipn k (frame_words f) ++ frames_words fs) m in
    let pos := words_taken sched k (1253 * S (length fs)) in
    snd R = skipn pos (frame_words f ++ frames_words fs)
    /\ csv (machine_of (fst R))
       = csv m ++ concat (map frame_rows (firstn (pos / 1253) (f :: fs)))
    /\ err (machine_of (fst R))
       = err m ++ frames_err (last_frame_timestamp m)
                            (firstn (pos / 1253) (f :: fs))
    /\ last_frame_timestamp (machine_of (fst R))
       = frames_last (last_frame_timestamp m) (firstn (pos / 1253) (f :: fs)).
Proof.
  induction sched as [|o sched IH]; intros f fs k m Hok Hoks Hk Hin R pos.
  - subst R pos. cbn [main_loop words_taken fst snd machine_of].
    rewrite Nat.div_small by exact Hk. cbn [firstn map concat frames_err
      frames_last]. rewrite !app_nil_r.
    rewrite skipn_frame_app by (try assumption; lia). auto.
  - subst R pos. rewrite main_loop_cons. destruct o as [|j].
    + rewrite loop_iter_error. cbn [fst snd machine_of words_taken].
      exact (IH f fs k (nanosleep m) Hok Hoks Hk
                (in_frame_nanosleep f k m Hin)).
    + cbn [words_taken].
      rewrite (Nat.mod_small k 1253 Hk).
      replace (Nat.min j (Nat.min (1253 - k) (1253 * S (length fs) - k)))
        with (Nat.min j (1253 - k)) by lia.
      pose proof (in_frame_inv f k m Hk Hin) as Hinv.
      destruct (loop_iter_cases j (skipn k (frame_words f) ++ frames_words fs)
                  m (proj1 Hinv)) as (m1 & tty1 & Hli & Hc).
      rewrite Hli. cbn [fst snd machine_of].
      pose proof (iter_case_tty _ _ _ _ _ Hc) as Ht1.
      rewrite (in_frame_taken f (frames_words fs) Hok j k m Hk Hin) in Ht1.
      assert (Hlen1 : length tty1
                      = (1253 - k + length (frames_words fs)
                         - Nat.min j (1253 - k))%nat).
      { rewrite Ht1, length_skipn, length_app, length_skipn,
          (frame_words_length f Hok). reflexivity. }
      destruct (frame_step f (frames_words fs) Hok j k m m1 tty1 Hk Hin Hc)
        as [(k1 & Hk1 & Hin1 & (Hc1 & He1 & Hl1) & Htty) | (Hd & Htty)].
      * assert (Ek : k1 = (k + Nat.min j (1253 - k))%nat).
        { rewrite Htty, length_app, length_skipn,
            (frame_words_length f Hok) in Hlen1. lia. }
        rewrite Htty, <- Ek.
        destruct (IH f fs k1 m1 Hok Hoks (proj2 Hk1) Hin1)
          as (A & B & C & D).
        rewrite A, B, C, D, Hc1, He1, Hl1. auto.
      * assert (Ek : (k + Nat.min j (1253 - k) = 1253)%nat).
        { rewrite Htty in Hlen1. lia. }
        rewrite Ek, Htty.
        destruct Hd as (Hst1 & Hb1 & Hl1 & Hc1 & He1).
        destruct fs as [|f2 fs2].
        -- cbn [length]. change (1253 * 1)%nat with 1253%nat.
           rewrite words_taken_end.
           change (1253 / 1253)%nat with 1%nat.
           cbn [frames_words map concat firstn frames_err frames_last].
           rewrite main_loop_drained
             by (destruct Hst1 as (-> & _); unfold FRAME_TOTAL_INTS; lia).
           cbn [fst snd machine_of add_sleep csv err last_frame_timestamp].
           rewrite Hc1, He1, Hl1, !app_nil_r.
           rewrite skipn_all2 by (rewrite (frame_words_length f Hok); lia).
           auto.
        -- cbn [forallb] in Hoks. apply andb_prop in Hoks as [Hok2 Hoks2].
           pose proof (IH f2 fs2 0%nat m1 Hok2 Hoks2 ltac:(lia)
                         (at_start_in_frame f2 m1 Hst1)) as IH2.
           cbv zeta in IH2. cbn [skipn] in IH2.
           change (frames_words (f2 :: fs2))
             with (frame_words f2 ++ frames_words fs2).
           destruct IH2 as (A & B & C & D).
           replace (1253 * S (length (f2 :: fs2)))%nat
             with (1253 * S (length fs2) + 1253)%nat by (cbn [length]; lia).
           assert (Hsh : forall total,
                     words_taken sched 1253 (total + 1253)
                     = (1253 + words_taken sched 0 total)%nat)
             by (intros total; exact (words_taken_shift sched 0 total)).
           rewrite Hsh.
           set (pos2 := words_taken sched 0 (1253 * S (length fs2))) in *.
           assert (Hq : ((1253 + pos2) / 1253 = S (pos2 / 1253))%nat).
           { replace (1253 + pos2)%nat with (1 * 1253 + pos2)%nat by lia.
             rewrite Nat.div_add_l by lia. reflexivity. }
           rewrite Hq.
           cbn [firstn map concat frames_err frames_last].
           rewrite A, B, C, D, Hc1, He1, Hl1, <- !app_assoc.
           split; [|auto].
           replace (1253 + pos2)%nat with (pos2 + 1253)%nat by lia.
           rewrite <- (skipn_skipn pos2 1253).
           rewrite (skipn_frame_app f 1253 _ Hok (Nat.le_refl _)).
           rewrite (skipn_all2 (n := 1253) (frame_words f))
             by (rewrite (frame_words_length f Hok); lia).
           reflexivity.
Qed.

(** ** Noise: what the reads offer while the start word is awaited *)

Lemma noise_taken_ge (sched : list offer) :
  forall pos total, (pos <= noise_taken sched pos total)%nat.
Proof.
  induction sched as [|o sched IH]; intros pos total; cbn [noise_taken].
  - lia.
  - destruct o as [|k]; [apply IH|].
    etransitivity; [|apply IH]. lia.
Qed.

Lemma noise_taken_shift (sched : list offer) (n : nat) :
  forall pos total,
    noise_taken sched (pos + n) (total + n)
    = (n + noise_taken sched pos total)%nat.
Proof.
  induction sched as [|o sched IH]; intros pos total; cbn [noise_taken].
  - lia.
  - destruct o as [|k]; [apply IH|].
    replace (total + n - (pos + n))%nat with (total - pos)%nat by lia.
    rewrite <- IH. f_equal. lia.
Qed.

Lemma at_start_taken (k : nat) (tty : list Z) (m : machine) :
  at_start m ->
  taken k tty m = Nat.min k (Nat.min 1253 (length tty)).
Proof.
  intros (Hp & _). unfold taken, FRAME_TOTAL_INTS. rewrite Hp. reflexivity.
Qed.

Lemma noise_drop_step (k : nat) (w : Z) (noise rest : list Z) (m : machine) :
  at_start m ->
  w <> USB_SOF ->
  (0 < taken k ((w :: noise) ++ rest) m <= length (w :: noise))%nat ->
  exists m1,
    loop_iter (Ready k) ((w :: noise) ++ rest) m
    = (Running m1,
       skipn (taken k ((w :: noise) ++ rest) m) (w :: noise) ++ rest)
    /\ at_start m1 /\ same_out m m1.
Proof.
  intros Hst Hw Hn.
  pose proof (at_start_inv m Hst) as Hinv.
  destruct Hst as (Hp & Hstate & Hl).
  destruct (loop_iter_cases k ((w :: noise) ++ rest) m (proj1 Hinv))
    as (m1 & tty1 & Hli & Hc).
  rewrite Hli.
  assert (Ht : skipn (taken k ((w :: noise) ++ rest) m) ((w :: noise) ++ rest)
               = skipn (taken k ((w :: noise) ++ rest) m) (w :: noise) ++ rest).
  { rewrite skipn_app.
    replace (taken k ((w :: noise) ++ rest) m - length (w :: noise))%nat
      with O by lia.
    reflexivity. }
  destruct Hc as [Hz | _ Hs Hwd | _ Hs Hwd | _ Hs Hwd].
  - lia.
  - rewrite Ht. eexists. split; [reflexivity|].
    unfold at_start, same_out. unfold_setters.
    repeat split; auto. apply length_buff_after, Hinv.
  - exfalso. apply Hw. rewrite <- (Hs Hstate), Hp.
    symmetry. apply (buff_after_head k w (noise ++ rest) m Hp). apply Hn.
  - exfalso. apply Hw. rewrite <- (Hs Hstate), Hp.
    symmetry. apply (buff_after_head k w (noise ++ rest) m Hp). apply Hn.
Qed.

(** Reads that stop where the noise ends take the noise and nothing else,
    and leave the loop as it was. *)
Lemma noise_follow (s1 : list offer) :
  forall (noise rest : list Z) (m : machine),
    at_start m ->
    noise_ok noise = true ->
    noise_taken s1 0 (length noise + length rest) = length noise ->
    snd (main_loop s1 (noise ++ rest) m) = rest
    /\ at_start (machine_of (fst (main_loop s1 (noise ++ rest) m)))
    /\ same_out m (machine_of (fst (main_loop s1 (noise ++ rest) m))).
Proof.
  induction s1 as [|o s1 IH]; intros noise rest m Hst Hnoise Htaken.
  - cbn [noise_taken] in Htaken. destruct noise; [|discriminate Htaken].
    cbn. split; [reflexivity|]. split; [exact Hst | apply same_out_refl].
  - rewrite main_loop_cons. destruct o as [|k].
    + rewrite loop_iter_error. cbn [fst snd machine_of].
      cbn [noise_taken] in Htaken.
      destruct (IH noise rest (nanosleep m)) as (A & B & C); auto.
    + cbn [noise_taken Nat.add] in Htaken.
      set (n := Nat.min k (Nat.min 1253 (length noise + length rest - 0)))
        in Htaken.
      assert (Hn : taken k (noise ++ rest) m = n).
      { rewrite (at_start_taken k _ m Hst), length_app. unfold n.
        rewrite Nat.sub_0_r. reflexivity. }
      pose proof (noise_taken_ge s1 n (length noise + length rest)) as Hge.
      assert (Hle : (n <= length noise)%nat) by lia.
      destruct (Nat.eq_dec n 0) as [E0 | Hpos].
      * rewrite loop_iter_idle
          by (try exact Hn; try (rewrite Hn; exact E0);
              apply (at_start_inv m Hst)).
        cbn [fst snd machine_of]. rewrite E0 in Htaken.
        destruct (IH noise rest (nanosleep m)) as (A & B & C); auto.
      * destruct noise as [|w noise]; [cbn [length] in Hle; lia|].
        pose proof Hnoise as Hnoise'.
        cbn [noise_ok forallb] in Hnoise'.
        apply andb_prop in Hnoise' as [Hw0 _].
        apply negb_true_iff, Z.eqb_neq in Hw0.
        destruct (noise_drop_step k w noise rest m Hst Hw0)
          as (m1 & Hli & Hst1 & Hso1); [rewrite Hn; lia|].
        rewrite Hli, Hn. cbn [fst snd machine_of].
        destruct (IH (skipn n (w :: noise)) rest m1 Hst1
                     (noise_ok_skipn n _ Hnoise)) as (A & B & C).
        { rewrite length_skipn.
          replace (length (w :: noise) + length rest)%nat
            with ((length (w :: noise) - n + length rest) + n)%nat
            in Htaken by lia.
          change n with (0 + n)%nat in Htaken at 1.
          rewrite noise_taken_shift in Htaken. lia. }
        split; [exact A|]. split; [exact B|].
        exact (same_out_trans _ _ _ Hso1 C).
Qed.

(** * The claims *)

(** ** C1: a frame that never ends *)

(** C1.  The start word followed by at least 1253 words, none of the first
    1252 of them the end word (so the 1253-word buffer fills without one),
    under any division into reads.  Nothing is ever printed: no
    length-overrun message (the test of line 172 runs before the increment of
    line 179, and a read never ends beyond slot 1252), no row.  At most 1253
    words are ever read; once the start word is in, the state stays
    [STATE_FIND_EOF] and the offset never goes back to 0.  At offset 1253
    every further read asks for 0 bytes and the loop only sleeps, the words
    behind left unread. *)
Theorem overrun_never_reported_loop_hangs
        (ws : list Z) (sched : list offer) :
  (1253 <= length ws)%nat ->
  no_eof (firstn 1252 ws) = true ->
  err (machine_of (fst (main_loop sched (USB_SOF :: ws) init))) = []
  /\ csv (machine_of (fst (main_loop sched (USB_SOF :: ws) init)))
     = [CsvHeader]
  /\ (exists k,
        (k <= 1253)%nat
        /\ snd (main_loop sched (USB_SOF :: ws) init)
           = skipn k (USB_SOF :: ws)
        /\ read_off (machine_of (fst (main_loop sched (USB_SOF :: ws) init)))
           = Z.of_nat k
        /\ (k <> O ->
            state (machine_of (fst (main_loop sched (USB_SOF :: ws) init)))
            = STATE_FIND_EOF))
  /\ (read_off (machine_of (fst (main_loop sched (USB_SOF :: ws) init)))
      = FRAME_TOTAL_INTS ->
      forall later,
        main_loop later (snd (main_loop sched (USB_SOF :: ws) init))
          (machine_of (fst (main_loop sched (USB_SOF :: ws) init)))
        = (Running (add_sleep (1000000 * Z.of_nat (length later))
             (machine_of (fst (main_loop sched (USB_SOF :: ws) init)))),
           snd (main_loop sched (USB_SOF :: ws) init))).
Proof.
  intros Hlen Hne.
  assert (Hnone : forall i, (i < 1253)%nat ->
            nth i (USB_SOF :: ws) 0 <> USB_EOF_i32).
  { intros [|i] Hi; [discriminate|]. cbn [nth].
    unfold no_eof in Hne. rewrite forallb_forall in Hne.
    assert (Hin : In (nth i ws 0) (firstn 1252 ws)).
    { replace (nth i ws 0) with (nth i (firstn 1252 ws) 0).
      - apply nth_In. rewrite length_firstn. lia.
      - rewrite nth_firstn. destruct (Nat.ltb_spec i 1252); [reflexivity | lia]. }
    specialize (Hne _ Hin). apply negb_true_iff, Z.eqb_neq in Hne.
    exact Hne. }
  destruct (overrun_run (USB_SOF :: ws) ltac:(cbn [length]; lia) eq_refl Hnone
              sched 0 init ltac:(lia))
    as (k & Hk & Hin & (Hcsv & Herr & _) & Ht).
  { unfold holding. repeat split. intros H; contradiction. }
  cbn [skipn] in *.
  destruct Hin as (Hp & _ & _ & _ & H1).
  split; [exact Herr|]. split; [exact Hcsv|]. split.
  - exists k. repeat split; try lia; assumption.
  - intros Hfull later. apply main_loop_full, Hfull.
Qed.

Lemma overrun_never_reported_loop_hangs_witness :
  read_off (machine_of (fst
     (main_loop [Ready 1; Ready 600; Ready 2000; Ready 5]
                (USB_SOF :: repeat 0 1253 ++ frame_words (ramp_frame 100))
                init)))
  = FRAME_TOTAL_INTS
  /\ err (machine_of (fst
     (main_loop [Ready 1; Ready 600; Ready 2000; Ready 5]
                (USB_SOF :: repeat 0 1253 ++ frame_words (ramp_frame 100))
                init)))
  = [].
Proof.
  split; [vm_compute; reflexivity|].
  refine (proj1 (overrun_never_reported_loop_hangs
                   (repeat 0 1253 ++ frame_words (ramp_frame 100))
                   [Ready 1; Ready 600; Ready 2000; Ready 5] _ _)).
  - apply Nat.leb_le. vm_compute. reflexivity.
  - vm_compute. reflexivity.
Defined.

(** ** C2: a failing read *)

(** C2.  A read that fails returns -1, and line 145 divides by 4 before the
    test of line 146: [n] is 0, the loop sleeps 1 ms and reads again.  The
    loop never returns, whatever the reads answer; the branch of lines
    147-152 (message, release, [EXIT_FAILURE]) would need a return value of
    -4 or less. *)
Theorem read_error_not_fatal :
  (forall tty m, loop_iter ReadError tty m = (Running (nanosleep m), tty))
  /\ (forall sched tty m, exists m', fst (main_loop sched tty m) = Running m')
  /\ main_loop [ReadError; ReadError] [USB_SOF] init
     = (Running (add_sleep 2000000 init), [USB_SOF])
  /\ (forall m, after_read (-4) m
                = Exited EXIT_FAILURE (release (print_err [ErrReadTty] m))).
Proof.
  split; [exact loop_iter_error|].
  split; [exact main_loop_running|].
  split; reflexivity.
Qed.

(** ** C3: the timestamps of the rows *)

(** C3.  The rows of an accepted frame start at [(T * 1000) mod 2^32], the
    product of line 201 being an [unsigned int] one, and go up by 80.  For
    T = 4294968 ms the first row carries 704, not 4294968000. *)
Theorem timestamp_product_wraps_32bit :
  (forall b,
      csv_times (frame_rows_of_buff b) =
      map (fun j => (to_uint32 (word_at b 1) * 1000) mod 2^32
                    + 80 * Z.of_nat j) (seq 0 1250))
  /\ csv_times (csv (machine_of (fst
        (main_loop [Ready 1253] (frame_words (ramp_frame 4294968)) init))))
     = map (fun j => 704 + 80 * Z.of_nat j) (seq 0 1250)
  /\ to_uint32 (f_timestamp (ramp_frame 4294968)) * 1000 = 4294968000.
Proof.
  split; [|split].
  - intros b. rewrite frame_rows_of_buff_closed. unfold rows_closed.
    rewrite csv_times_rows, first_data_timestamp_eq. reflexivity.
  - vm_compute. reflexivity.
  - reflexivity.
Qed.

(** ** C4: noise, then one frame *)


(** C4 as stated fails.  First run: one noise word and a frame, the first
    read bringing the noise word and the start word together; slot 0 holds
    the noise word, the read is dropped whole, and no row is ever printed.
    Second run: the noise is read apart, but the frame's timestamp word is
    the end word and a read stops right after it; a 2-word frame is accepted
    and the rows are the zeros of the fresh buffer, not the payload. *)
Lemma resync_fails_when_read_spans_noise_and_sof :
  (noise_ok [0] = true
   /\ frame_ok (ramp_frame 100) = true
   /\ snd (main_loop [Ready 2; Ready 1253]
                     ([0] ++ frame_words (ramp_frame 100)) init) = []
   /\ csv (machine_of (fst (main_loop [Ready 2; Ready 1253]
                     ([0] ++ frame_words (ramp_frame 100)) init)))
      = [CsvHeader])
  /\ (payload_ok (ramp_frame USB_EOF_i32) = true
      /\ snd (main_loop [Ready 1; Ready 2; Ready 1253]
                     ([0] ++ frame_words (ramp_frame USB_EOF_i32)) init) = []
      /\ csv_samples (csv (machine_of (fst
            (main_loop [Ready 1; Ready 2; Ready 1253]
                     ([0] ++ frame_words (ramp_frame USB_EOF_i32)) init))))
         = repeat 0 1250
      /\ repeat 0 1250 <> f_data (ramp_frame USB_EOF_i32)).
Proof.
  split.
  - repeat split; vm_compute; reflexivity.
  - split; [vm_compute; reflexivity|].
    split; [vm_compute; reflexivity|].
    split; [vm_compute; reflexivity|].
    intros H. apply (f_equal (fun l => nth 0 l 0)) in H.
    vm_compute in H. discriminate H.
Qed.

Lemma forallb_firstn {A} (g : A -> bool) (n : nat) (l : list A) :
  forallb g l = true -> forallb g (firstn n l) = true.
Proof.
  revert l. induction n as [|n IH]; intros l H; [reflexivity|].
  destruct l as [|x l]; [reflexivity|].
  cbn [forallb firstn] in *. apply andb_prop in H as [Hx Hl].
  rewrite Hx, (IH l Hl). reflexivity.
Qed.

(** C4, amended.  Noise without a start word, then one frame whose timestamp
    word and samples are not the end word.  If the reads that take the noise
    stop where the frame begins (every one of them is asked for 1253 words and
    returns what is offered of them), the loop goes on to take exactly the
    words the later reads offer of the frame.  When these offer the whole
    frame, as they do when at least 1253 of them offer a word, every word is
    read and the file holds the header and exactly the frame's 1250 rows, the
    payload in the data column; until then it holds the header only. *)
Theorem resync_when_noise_read_apart
        (noise : list Z) (f : frame) (s1 s2 : list offer) :
  noise_ok noise = true ->
  frame_ok f = true ->
  noise_taken s1 0 (length noise + 1253) = length noise ->
  snd (main_loop (s1 ++ s2) (noise ++ frame_words f) init)
  = skipn (words_taken s2 0 1253) (frame_words f)
  /\ (words_taken s2 0 1253 = 1253%nat ->
      snd (main_loop (s1 ++ s2) (noise ++ frame_words f) init) = []
      /\ csv (machine_of (fst
            (main_loop (s1 ++ s2) (noise ++ frame_words f) init)))
         = CsvHeader :: frame_rows f
      /\ csv_samples (csv (machine_of (fst
            (main_loop (s1 ++ s2) (noise ++ frame_words f) init))))
         = f_data f
      /\ length (csv_samples (csv (machine_of (fst
            (main_loop (s1 ++ s2) (noise ++ frame_words f) init)))))
         = 1250%nat)
  /\ ((words_taken s2 0 1253 < 1253)%nat ->
      csv (machine_of (fst
            (main_loop (s1 ++ s2) (noise ++ frame_words f) init)))
      = [CsvHeader])
  /\ ((1253 <= positive_reads s2)%nat -> words_taken s2 0 1253 = 1253%nat).
Proof.
  intros Hnoise Hok Hcut.
  assert (Hst0 : at_start init) by (repeat split).
  rewrite <- (frame_words_length f Hok) in Hcut.
  destruct (noise_follow s1 noise (frame_words f) init Hst0 Hnoise Hcut)
    as (Ht1 & Hst1 & (Hc1 & _)).
  rewrite main_loop_app, Ht1.
  set (m1 := machine_of (fst (main_loop s1 (noise ++ frame_words f) init)))
    in *.
  pose proof (frames_follow s2 f [] 0 m1 Hok eq_refl ltac:(lia)
                (at_start_in_frame f m1 Hst1)) as Hrun.
  cbv zeta in Hrun. cbn [skipn frames_words map concat length] in Hrun.
  change (1253 * 1)%nat with 1253%nat in Hrun.
  rewrite app_nil_r in Hrun.
  destruct Hrun as (A & B & _).
  rewrite B, Hc1.
  split; [exact A|]. split; [|split].
  - intros Hall. rewrite A, Hall.
    change (1253 / 1253)%nat with 1%nat.
    cbn [firstn map concat]. rewrite app_nil_r.
    change (csv init ++ frame_rows f) with (CsvHeader :: frame_rows f).
    change (csv_samples (CsvHeader :: ?r)) with (csv_samples r).
    rewrite (csv_samples_frame_rows f Hok).
    split; [|split; [reflexivity|split; [reflexivity|]]].
    + apply skipn_all2. rewrite (frame_words_length f Hok). lia.
    + apply (frame_ok_parts f Hok).
  - intros Hpart. rewrite Nat.div_small by exact Hpart.
    reflexivity.
  - intros Hen. apply enough_reads_take_all; lia.
Qed.

Lemma resync_when_noise_read_apart_witness :
  snd (main_loop ([Ready 2; ReadError; Ready 3]
                  ++ [Ready 700; Ready 0; Ready 2000])
                 ([7; 8; 9; USB_EOF_i32; 0] ++ frame_words (ramp_frame 100))
                 init) = []
  /\ csv_samples (csv (machine_of (fst
       (main_loop ([Ready 2; ReadError; Ready 3]
                   ++ [Ready 700; Ready 0; Ready 2000])
                  ([7; 8; 9; USB_EOF_i32; 0] ++ frame_words (ramp_frame 100))
                  init))))
     = f_data (ramp_frame 100).
Proof.
  destruct (resync_when_noise_read_apart [7; 8; 9; USB_EOF_i32; 0]
              (ramp_frame 100) [Ready 2; ReadError; Ready 3]
              [Ready 700; Ready 0; Ready 2000])
    as (_ & Hall & _).
  - vm_compute. reflexivity.
  - vm_compute. reflexivity.
  - vm_compute. reflexivity.
  - destruct Hall as (H1 & _ & H3 & _); [vm_compute; reflexivity|].
    split; [exact H1 | exact H3].
Defined.

(** ** C5: frames back to back *)

(** C5 as stated fails: the payload is free of sentinels, but the timestamp
    word is the end word ([0xAAAAAAAA] ms) and the first read stops after it.
    All words are read; the 1250 rows are zeros, not the payload. *)
Lemma framing_fails_timestamp_eof :
  payload_ok (ramp_frame USB_EOF_i32) = true
  /\ snd (main_loop [Ready 2; Ready 1253]
                    (frames_words [ramp_frame USB_EOF_i32]) init) = []
  /\ csv_samples (csv (machine_of (fst
        (main_loop [Ready 2; Ready 1253]
                   (frames_words [ramp_frame USB_EOF_i32]) init))))
     = repeat 0 1250
  /\ repeat 0 1250 <> concat (map f_data [ramp_frame USB_EOF_i32]).
Proof.
  split; [vm_compute; reflexivity|].
  split; [vm_compute; reflexivity|].
  split; [vm_compute; reflexivity|].
  intros H. apply (f_equal (fun l => nth 0 l 0)) in H.
  vm_compute in H. discriminate H.
Qed.

(** C5, amended.  Frames sent back to back, none with the end word as its
    timestamp word or as a sample.  However the reads divide the words, the
    loop takes exactly the words they offer (each read is asked for the rest
    of the frame it stands in) and the data column of the file is the
    payloads, in input order, of the frames taken whole.  When the reads
    offer all the words, as they do when at least as many of them offer a
    word as there are words, every word is read and the file holds the header
    and N * 1250 rows whose data column is the N payloads in input order. *)
Theorem back_to_back_frames_rows (fs : list frame) (sched : list offer) :
  forallb frame_ok fs = true ->
  snd (main_loop sched (frames_words fs) init)
  = skipn (words_taken sched 0 (1253 * length fs)) (frames_words fs)
  /\ csv_samples (csv (machine_of (fst
        (main_loop sched (frames_words fs) init))))
     = concat (map f_data
                (firstn (words_taken sched 0 (1253 * length fs) / 1253) fs))
  /\ (words_taken sched 0 (1253 * length fs) = (1253 * length fs)%nat ->
      snd (main_loop sched (frames_words fs) init) = []
      /\ csv (machine_of (fst (main_loop sched (frames_words fs) init)))
         = CsvHeader :: concat (map frame_rows fs)
      /\ csv_samples (csv (machine_of (fst
            (main_loop sched (frames_words fs) init))))
         = concat (map f_data fs)
      /\ length (csv_samples (csv (machine_of (fst
            (main_loop sched (frames_words fs) init)))))
         = (length fs * 1250)%nat)
  /\ ((1253 * length fs <= positive_reads sched)%nat ->
      words_taken sched 0 (1253 * length fs) = (1253 * length fs)%nat).
Proof.
  intros Hoks.
  assert (Hrun :
    snd (main_loop sched (frames_words fs) init)
    = skipn (words_taken sched 0 (1253 * length fs)) (frames_words fs)
    /\ csv (machine_of (fst (main_loop sched (frames_words fs) init)))
       = CsvHeader
         :: concat (map frame_rows
              (firstn (words_taken sched 0 (1253 * length fs) / 1253) fs))).
  { destruct fs as [|f fs'].
    - cbn [length frames_words map concat]. rewrite Nat.mul_0_r.
      rewrite words_taken_end.
      rewrite main_loop_drained by (cbn; unfold FRAME_TOTAL_INTS; lia).
      split; reflexivity.
    - cbn [forallb] in Hoks. apply andb_prop in Hoks as [Hok Hoks'].
      pose proof (frames_follow sched f fs' 0 init Hok Hoks' ltac:(lia)
                    (at_start_in_frame f init ltac:(repeat split))) as H.
      cbv zeta in H. cbn [skipn] in H. destruct H as (A & B & _).
      change (frames_words (f :: fs'))
        with (frame_words f ++ frames_words fs').
      cbn [length]. rewrite A, B. split; reflexivity. }
  destruct Hrun as (A & B).
  split; [exact A|]. rewrite B.
  change (csv_samples (CsvHeader :: ?r)) with (csv_samples r).
  split; [|split].
  - apply csv_samples_frames, forallb_firstn, Hoks.
  - intros Hall. rewrite A, Hall.
    replace (1253 * length fs / 1253)%nat with (length fs)
      by (rewrite Nat.mul_comm, Nat.div_mul by lia; reflexivity).
    rewrite firstn_all, (csv_samples_frames fs Hoks).
    split; [|split; [reflexivity|split; [reflexivity|]]].
    + apply skipn_all2. unfold frames_words.
      clear - Hoks. induction fs as [|f fs IH]; [cbn; lia|].
      cbn [forallb] in Hoks. apply andb_prop in Hoks as [Hok Hoks].
      cbn [map concat length]. rewrite length_app, (frame_words_length f Hok).
      specialize (IH Hoks). lia.
    + apply length_concat_data, Hoks.
  - intros Hen. apply enough_reads_take_all; lia.
Qed.

Lemma back_to_back_frames_rows_witness :
  snd (main_loop [Ready 1; Ready 1; Ready 900; Ready 0; Ready 400; ReadError;
                  Ready 1253; Ready 3]
                 (frames_words [ramp_frame 100; ramp_frame 200]) init) = []
  /\ csv_samples (csv (machine_of (fst
       (main_loop [Ready 1; Ready 1; Ready 900; Ready 0; Ready 400; ReadError;
                   Ready 1253; Ready 3]
                  (frames_words [ramp_frame 100; ramp_frame 200]) init))))
     = concat (map f_data [ramp_frame 100; ramp_frame 200]).
Proof.
  destruct (back_to_back_frames_rows
              [ramp_frame 100; ramp_frame 200]
              [Ready 1; Ready 1; Ready 900; Ready 0; Ready 400;
               ReadError; Ready 1253; Ready 3])
    as (_ & _ & Hall & _).
  - vm_compute. reflexivity.
  - destruct Hall as (H1 & _ & H3 & _); [vm_compute; reflexivity|].
    split; [exact H1 | exact H3].
Defined.

(** ** C6: the interval between two frames *)

(** C6 as stated fails: the retained timestamp doubles as the "none yet"
    mark (line 190).  After a frame stamped 0 the next frame, stamped 50, is
    not checked and no warning is printed, although 50 - 0 is not 100. *)
Lemma interval_check_skipped_after_zero_timestamp :
  frame_ok (ramp_frame 0) = true
  /\ frame_ok (ramp_frame 50) = true
  /\ to_uint32 (to_uint32 50 - to_uint32 0) <> FRAME_INTERVAL
  /\ snd (main_loop [Ready 1253; Ready 1253]
                    (frames_words [ramp_frame 0; ramp_frame 50]) init) = []
  /\ err (machine_of (fst (main_loop [Ready 1253; Ready 1253]
                    (frames_words [ramp_frame 0; ramp_frame 50]) init))) = []
  /\ length (csv_samples (csv (machine_of (fst (main_loop [Ready 1253; Ready 1253]
                    (frames_words [ramp_frame 0; ramp_frame 50]) init)))))
     = 2500%nat.
Proof.
  split; [vm_compute; reflexivity|].
  split; [vm_compute; reflexivity|].
  split; [vm_compute; discriminate|].
  repeat split; vm_compute; reflexivity.
Qed.

Lemma interval_check_mismatch (t1 t2 : Z) :
  t1 <> 0 ->
  to_uint32 (t2 - t1) <> FRAME_INTERVAL ->
  interval_check t1 t2 =
  [WarnIntervalMismatch FRAME_INTERVAL (to_int32 (to_uint32 (t2 - t1)))].
Proof.
  intros H1 H2. unfold interval_check.
  destruct (Z.eqb_spec t1 0); [contradiction|].
  destruct (Z.eqb_spec (to_uint32 (t2 - t1)) FRAME_INTERVAL); [contradiction|].
  reflexivity.
Qed.

Lemma size_check_no_interval_warning (b : list Z) (p : Z) :
  filter is_interval_warning (size_check b p) = [].
Proof. unfold size_check. destruct (negb _); reflexivity. Qed.

(** C6, amended.  Two frames in a row, the first with a timestamp other than
    0, the second differing from it (modulo 2^32) by other than 100, however
    the reads divide them.  The loop takes exactly the words the reads offer;
    when they offer all 2506, as they do when at least 2506 of them offer a
    word, the second frame has added exactly one interval warning (after
    whatever the first frame's own check against the earlier timestamp
    printed), the 2500 rows of both frames are in the file with both payloads
    in the data column, and the retained timestamp is the second frame's.
    More generally, whenever a buffer is accepted its 1250 rows, slots 2 to
    1251 in the data column, are written and its timestamp is retained, and
    if the retained timestamp was not 0 and differs from the new one by
    other than 100, exactly one interval warning is added. *)
Theorem interval_mismatch_one_warning
        (f1 f2 : frame) (sched : list offer) (m : machine) :
  frame_ok f1 = true ->
  frame_ok f2 = true ->
  at_start m ->
  to_uint32 (f_timestamp f1) <> 0 ->
  to_uint32 (to_uint32 (f_timestamp f2) - to_uint32 (f_timestamp f1))
    <> FRAME_INTERVAL ->
  snd (main_loop sched (frames_words [f1; f2]) m)
  = skipn (words_taken sched 0 2506) (frames_words [f1; f2])
  /\ (words_taken sched 0 2506 = 2506%nat ->
      snd (main_loop sched (frames_words [f1; f2]) m) = []
      /\ err (machine_of (fst (main_loop sched (frames_words [f1; f2]) m)))
         = (err m ++ interval_check (last_frame_timestamp m)
                                    (to_uint32 (f_timestamp f1)))
           ++ [WarnIntervalMismatch FRAME_INTERVAL
                 (to_int32 (to_uint32 (to_uint32 (f_timestamp f2)
                                       - to_uint32 (f_timestamp f1))))]
      /\ csv (machine_of (fst (main_loop sched (frames_words [f1; f2]) m)))
         = csv m ++ frame_rows f1 ++ frame_rows f2
      /\ csv_samples
           (csv (machine_of (fst (main_loop sched (frames_words [f1; f2]) m))))
         = csv_samples (csv m) ++ f_data f1 ++ f_data f2
      /\ length (f_data f1 ++ f_data f2) = 2500%nat
      /\ last_frame_timestamp
           (machine_of (fst (main_loop sched (frames_words [f1; f2]) m)))
         = to_uint32 (f_timestamp f2))
  /\ ((2506 <= positive_reads sched)%nat ->
      words_taken sched 0 2506 = 2506%nat)
  /\ (forall m0,
        last_frame_timestamp (accept_frame m0)
        = to_uint32 (word_at (frame_buff m0) 1)
        /\ csv (accept_frame m0)
           = csv m0 ++ frame_rows_of_buff (frame_buff m0)
        /\ length (frame_rows_of_buff (frame_buff m0)) = 1250%nat
        /\ (length (frame_buff m0) = Z.to_nat FRAME_TOTAL_INTS ->
            csv_samples (frame_rows_of_buff (frame_buff m0))
            = firstn 1250 (skipn 2 (frame_buff m0)))
        /\ (last_frame_timestamp m0 <> 0 ->
            to_uint32 (to_uint32 (word_at (frame_buff m0) 1)
                       - last_frame_timestamp m0) <> FRAME_INTERVAL ->
            filter is_interval_warning (err (accept_frame m0))
            = filter is_interval_warning (err m0)
              ++ [WarnIntervalMismatch FRAME_INTERVAL
                    (to_int32 (to_uint32
                       (to_uint32 (word_at (frame_buff m0) 1)
                        - last_frame_timestamp m0)))])).
Proof.
  intros Hok1 Hok2 Hst Hnz Hdiff.
  pose proof (frames_follow sched f1 [f2] 0 m Hok1
                ltac:(cbn [forallb]; rewrite Hok2; reflexivity) ltac:(lia)
                (at_start_in_frame f1 m Hst)) as Hrun.
  cbv zeta in Hrun. cbn [skipn length] in Hrun.
  change (1253 * 2)%nat with 2506%nat in Hrun.
  change (frame_words f1 ++ frames_words [f2])
    with (frames_words [f1; f2]) in Hrun.
  destruct Hrun as (A & B & C & D).
  split; [exact A|]. split; [|split].
  - intros Hall. rewrite A, B, C, D, Hall.
    change (2506 / 1253)%nat with 2%nat.
    cbn [firstn frames_err frames_last map concat].
    rewrite (interval_check_mismatch _ _ Hnz Hdiff), !app_nil_r.
    rewrite !csv_samples_app, (csv_samples_frame_rows f1 Hok1),
      (csv_samples_frame_rows f2 Hok2), app_assoc.
    split; [|repeat split].
    + apply skipn_all2. unfold frames_words. cbn [map concat].
      rewrite !length_app, (frame_words_length f1 Hok1),
        (frame_words_length f2 Hok2). cbn [length]. lia.
    + rewrite length_app.
      rewrite (proj1 (frame_ok_parts f1 Hok1)),
        (proj1 (frame_ok_parts f2 Hok2)). reflexivity.
  - intros Hen. apply enough_reads_take_all; lia.
  - intros m0. rewrite accept_frame_eq.
    cbn [last_frame_timestamp csv err].
    split; [reflexivity|]. split; [reflexivity|].
    split; [apply length_frame_rows_of_buff|].
    split; [apply csv_samples_rows_of_buff|].
    intros Hl Hd.
    rewrite !filter_app, size_check_no_interval_warning, app_nil_r.
    rewrite (interval_check_mismatch _ _ Hl Hd). reflexivity.
Qed.

Lemma interval_mismatch_one_warning_witness :
  err (machine_of (fst (main_loop [Ready 1000; Ready 1000; Ready 2000]
                         (frames_words [ramp_frame 7; ramp_frame 50]) init)))
  = [WarnIntervalMismatch 100 43]
  /\ csv_samples
       (csv (machine_of (fst (main_loop [Ready 1000; Ready 1000; Ready 2000]
                         (frames_words [ramp_frame 7; ramp_frame 50]) init))))
     = ramp ++ ramp.
Proof.
  destruct (interval_mismatch_one_warning (ramp_frame 7) (ramp_frame 50)
              [Ready 1000; Ready 1000; Ready 2000] init)
    as (_ & Hall & _).
  - vm_compute. reflexivity.
  - vm_compute. reflexivity.
  - repeat split.
  - vm_compute. discriminate.
  - vm_compute. discriminate.
  - destruct Hall as (_ & He & _ & Hs & _); [vm_compute; reflexivity|].
    split; [exact He | exact Hs].
Defined.

(** ** C7: reads of no words *)

(** C7.  Two runs over the same words whose reads differ only in reads of no
    words, put in or left out anywhere, end with the same file, the same
    messages, the same synchronizer (buffer, offset, state, retained
    timestamp) and the same words left; only the time slept differs.  A read
    of no words leaves the loop running and does nothing but sleep 1 ms. *)
Theorem zero_reads_do_not_change_output
        (s1 s2 : list offer) (tty : list Z) (m : machine) :
  drop_zero_reads s1 = drop_zero_reads s2 ->
  csv (machine_of (fst (main_loop s1 tty m)))
  = csv (machine_of (fst (main_loop s2 tty m)))
  /\ err (machine_of (fst (main_loop s1 tty m)))
     = err (machine_of (fst (main_loop s2 tty m)))
  /\ forget_sleep (machine_of (fst (main_loop s1 tty m)))
     = forget_sleep (machine_of (fst (main_loop s2 tty m)))
  /\ snd (main_loop s1 tty m) = snd (main_loop s2 tty m)
  /\ (forall tty0 m0,
        loop_iter (Ready 0) tty0 m0 = (Running (nanosleep m0), tty0)
        /\ forget_sleep (nanosleep m0) = forget_sleep m0
        /\ slept (nanosleep m0) = slept m0 + 1000000).
Proof.
  intros Hdrop.
  destruct (main_loop_drop_zero_reads s1 tty m m eq_refl) as (A1 & B1).
  destruct (main_loop_drop_zero_reads s2 tty m m eq_refl) as (A2 & B2).
  rewrite Hdrop in A1, B1.
  assert (Hf : forget_sleep (machine_of (fst (main_loop s1 tty m)))
               = forget_sleep (machine_of (fst (main_loop s2 tty m))))
    by congruence.
  split; [exact (f_equal csv Hf)|].
  split; [exact (f_equal err Hf)|].
  split; [exact Hf|].
  split; [congruence|].
  intros tty0 m0. split; [apply loop_iter_zero_read|]. split; reflexivity.
Qed.

Lemma zero_reads_do_not_change_output_witness :
  csv (machine_of (fst (main_loop
        [Ready 0; Ready 3; Ready 0; Ready 0; Ready 1250; ReadError; Ready 0]
        (frame_words (ramp_frame 100)) init)))
  = csv (machine_of (fst (main_loop
        [Ready 3; Ready 1250; Ready 0; ReadError]
        (frame_words (ramp_frame 100)) init))).
Proof.
  apply (zero_reads_do_not_change_output
           [Ready 0; Ready 3; Ready 0; Ready 0; Ready 1250; ReadError; Ready 0]
           [Ready 3; Ready 1250; Ready 0; ReadError]
           (frame_words (ramp_frame 100)) init).
  reflexivity.
Defined.

(** ** C8: a frame that ends early *)

Lemma size_check_mismatch (b : list Z) (p : Z) :
  p + 1 <> FRAME_TOTAL_INTS ->
  size_check b p =
  [WarnSizeMismatch (to_uint32 (word_at b 1)) (p + 1) FRAME_TOTAL_INTS].
Proof.
  intros H. unfold size_check.
  destruct (Z.eqb_spec (p + 1) FRAME_TOTAL_INTS); [contradiction|].
  reflexivity.
Qed.


(** C8.  An iteration that reads at least one word while a frame is being
    accumulated (or starts one: slot 0 holds the start word), and whose last
    word is the end word at a length other than 1253: the loop goes on, the
    size warning is printed with the timestamp and the length, then the
    interval check; the 1250 rows of buffer slots 2..1251 are written to the
    file, the timestamp is retained and the synchronizer is back at slot 0 in
    [STATE_FIND_SOF]. *)
Theorem short_frame_warned_and_accepted
        (k : nat) (tty : list Z) (m : machine) :
  inv m ->
  (0 < taken k tty m)%nat ->
  (state m = STATE_FIND_SOF ->
   word_at (buff_after k tty m) (read_off m) = USB_SOF) ->
  word_at (buff_after k tty m) (read_off m + (Z.of_nat (taken k tty m) - 1))
  = USB_EOF_i32 ->
  read_off m + (Z.of_nat (taken k tty m) - 1) + 1 <> FRAME_TOTAL_INTS ->
  exists m',
    loop_iter (Ready k) tty m = (Running m', skipn (taken k tty m) tty)
    /\ err m' =
       err m
       ++ WarnSizeMismatch (to_uint32 (word_at (buff_after k tty m) 1))
            (read_off m + (Z.of_nat (taken k tty m) - 1) + 1) FRAME_TOTAL_INTS
       :: interval_check (last_frame_timestamp m)
            (to_uint32 (word_at (buff_after k tty m) 1))
    /\ csv m' = csv m ++ frame_rows_of_buff (buff_after k tty m)
    /\ csv_samples (frame_rows_of_buff (buff_after k tty m))
       = firstn 1250 (skipn 2 (buff_after k tty m))
    /\ length (frame_rows_of_buff (buff_after k tty m)) = 1250%nat
    /\ last_frame_timestamp m' = to_uint32 (word_at (buff_after k tty m) 1)
    /\ read_off m' = 0
    /\ state m' = STATE_FIND_SOF.
Proof.
  intros Hinv Hpos Hsof Heof Hlen.
  destruct (loop_iter_cases k tty m (proj1 Hinv)) as (m' & tty' & Hli & Hc).
  destruct Hc as [Hz | _ Hs Hw | _ _ Hw | _ _ _].
  - lia.
  - exfalso. apply Hw, Hsof, Hs.
  - contradiction.
  - eexists. split; [exact Hli|].
    rewrite accept_frame_eq. unfold_setters.
    rewrite (size_check_mismatch _ _ Hlen), <- app_assoc.
    split; [reflexivity|]. split; [reflexivity|].
    split; [apply csv_samples_rows_of_buff, length_buff_after, Hinv|].
    split; [apply length_frame_rows_of_buff|].
    repeat split.
Qed.

Lemma short_frame_warned_and_accepted_witness :
  exists m',
    loop_iter (Ready 3) [USB_SOF; 5; USB_EOF_i32; 9] init
    = (Running m', [9])
    /\ err m' = [WarnSizeMismatch 5 3 1253]
    /\ length (csv m') = 1251%nat
    /\ read_off m' = 0
    /\ state m' = STATE_FIND_SOF.
Proof.
  destruct (short_frame_warned_and_accepted 3
              [USB_SOF; 5; USB_EOF_i32; 9] init)
    as (m' & Hli & Herr & Hcsv & _ & Hrows & _ & Hoff & Hstate).
  - apply inv_init.
  - vm_compute. lia.
  - intros _. vm_compute. reflexivity.
  - vm_compute. reflexivity.
  - vm_compute. discriminate.
  - exists m'. split; [exact Hli|]. split; [exact Herr|].
    split; [|split; assumption].
    rewrite Hcsv, length_app, Hrows. reflexivity.
Defined.

(** ** C9: the signal handler *)

(** C9 as stated fails: on SIGINT the handler exits with 130, not with 0. *)
Lemma signal_exit_status_not_success :
  ex_status (handle_signal SIGINT (Some open_csv)) = 130
  /\ ex_status (handle_signal SIGINT (Some open_csv)) <> EXIT_SUCCESS.
Proof. split; [reflexivity | discriminate]. Qed.

(** C9, amended.  On SIGINT or SIGTERM, with the output file open, the
    handler flushes what is buffered, closes the file, clears [fcsv] and
    exits with 128 plus the signal number: 130 and 143. *)
Theorem handle_signal_flushes_and_exits_128_plus_sig (f : FILE) :
  handle_signal SIGINT (Some f)
  = {| ex_fcsv := None;
       ex_closed := Some (on_disk f ++ buffered f);
       ex_status := 128 + SIGINT |}
  /\ handle_signal SIGTERM (Some f)
     = {| ex_fcsv := None;
          ex_closed := Some (on_disk f ++ buffered f);
          ex_status := 128 + SIGTERM |}
  /\ 128 + SIGINT = 130 /\ 128 + SIGTERM = 143.
Proof.
  unfold handle_signal, fclose, fflush. cbn [on_disk buffered].
  rewrite app_nil_r. repeat split.
Qed.

(** ** C10: reads stay inside the buffer *)

(** C10.  Whenever the loop is at [read], after any reads on any words: the
    offset is between 0 and 1253, the buffer has its 1253 words, the read
    asks for exactly (1253 - offset) words, whatever it stores ends within
    the buffer, and at offset 1253 it asks for 0 bytes, now and at every
    later read. *)
Theorem read_stays_in_buffer (sched : list offer) (tty : list Z) :
  0 <= read_off (machine_of (fst (main_loop sched tty init)))
    <= FRAME_TOTAL_INTS
  /\ length (frame_buff (machine_of (fst (main_loop sched tty init))))
     = Z.to_nat FRAME_TOTAL_INTS
  /\ read_count (machine_of (fst (main_loop sched tty init)))
     = (FRAME_TOTAL_INTS
        - read_off (machine_of (fst (main_loop sched tty init)))) * 4
  /\ (forall o,
        read_off (machine_of (fst (main_loop sched tty init)))
        + Z.of_nat (length (snd (fst
            (tty_read o (snd (main_loop sched tty init))
               (read_count (machine_of (fst (main_loop sched tty init))))))))
        <= FRAME_TOTAL_INTS)
  /\ (read_off (machine_of (fst (main_loop sched tty init)))
      = FRAME_TOTAL_INTS ->
      forall later,
        read_off (machine_of (fst
          (main_loop later (snd (main_loop sched tty init))
             (machine_of (fst (main_loop sched tty init))))))
        = FRAME_TOTAL_INTS
        /\ read_count (machine_of (fst
          (main_loop later (snd (main_loop sched tty init))
             (machine_of (fst (main_loop sched tty init))))))
           = 0).
Proof.
  pose proof (main_loop_inv sched tty init inv_init) as Hinv.
  set (m := machine_of (fst (main_loop sched tty init))) in *.
  set (tty' := snd (main_loop sched tty init)).
  destruct Hinv as (Hp & Hl & Hs).
  split; [exact Hp|]. split; [exact Hl|].
  split; [apply read_count_inv, Hp|].
  split.
  - intros o.
    pose proof (tty_read_bound o tty' (read_count m)) as Hb.
    rewrite read_count_inv in * by exact Hp.
    destruct (tty_read o tty' _) as [[ret ws] t]. cbn [fst snd].
    rewrite Z.div_mul in Hb by lia.
    assert (0 <= (FRAME_TOTAL_INTS - read_off m) * 4) by lia.
    specialize (Hb H). lia.
  - intros Hfull later.
    rewrite main_loop_full by exact Hfull. cbn [fst machine_of].
    unfold read_count, add_sleep. cbn [read_off]. rewrite Hfull.
    split; reflexivity.
Qed.

Lemma read_stays_in_buffer_witness :
  read_off (machine_of (fst
     (main_loop [Ready 700; Ready 700] (overrun_stream []) init)))
  = FRAME_TOTAL_INTS
  /\ forall later,
       read_count (machine_of (fst
          (main_loop later
             (snd (main_loop [Ready 700; Ready 700] (overrun_stream []) init))
             (machine_of (fst
                (main_loop [Ready 700; Ready 700] (overrun_stream []) init))))))
       = 0.
Proof.
  split; [vm_compute; reflexivity|].
  intros later.
  apply (read_stays_in_buffer [Ready 700; Ready 700] (overrun_stream [])).
  vm_compute. reflexivity.
Defined.

(** * Further properties of the loop *)

(** ** State, offset and slot 0 *)

Lemma word_at_store_0 (b ws : list Z) (p : Z) :
  1 <= p -> (Z.to_nat p <= length b)%nat ->
  word_at (store b p ws) 0 = word_at b 0.
Proof.
  intros Hp Hl. unfold word_at, store. cbn [Z.to_nat].
  destruct (Z.to_nat p) as [|q] eqn:E; [lia|].
  destruct b as [|x b]; [cbn in Hl; lia|]. reflexivity.
Qed.

Lemma iter_case_sync_inv (k : nat) (tty : list Z) (m m' : machine) tty' :
  sync_inv m -> iter_case k tty m m' tty' -> sync_inv m'.
Proof.
  intros (Hinv & Hsof) Hc. split; [exact (iter_case_inv _ _ _ _ _ Hinv Hc)|].
  destruct Hinv as (Hp & Hl & Hs).
  destruct Hc as [Hz | Hpos Hst Hw | Hpos Hst Hw | Hpos Hst Hw]; unfold_setters.
  - exact Hsof.
  - intros E. rewrite E in Hst. discriminate.
  - intros _. split; [lia|].
    destruct (state m) eqn:Est.
    + pose proof (Hst eq_refl) as H. rewrite (Hs eq_refl) in H. exact H.
    + destruct (Hsof eq_refl) as (Hp1 & H0).
      unfold buff_after. rewrite word_at_store_0; [exact H0 | exact Hp1 |].
      rewrite Hl. unfold FRAME_TOTAL_INTS in *. lia.
  - discriminate.
Qed.

Lemma main_loop_sync_inv (sched : list offer) :
  forall tty m, sync_inv m ->
                sync_inv (machine_of (fst (main_loop sched tty m))).
Proof.
  induction sched as [|o sched IH]; intros tty m Hinv; [exact Hinv|].
  rewrite main_loop_cons. apply IH. destruct o as [|k].
  - rewrite loop_iter_error. cbn [fst machine_of].
    unfold sync_inv, inv in *; unfold_setters. exact Hinv.
  - destruct (loop_iter_cases k tty m (proj1 (proj1 Hinv)))
      as (m' & tty' & -> & Hc).
    exact (iter_case_sync_inv _ _ _ _ _ Hinv Hc).
Qed.

(** One iteration either leaves the file as it is or adds the rows of the
    buffer it then holds. *)
Lemma loop_iter_csv (o : offer) (tty : list Z) (m : machine) :
  sync_inv m ->
  (csv (machine_of (fst (loop_iter o tty m))) = csv m
   /\ (length (csv m)
       <? length (csv (machine_of (fst (loop_iter o tty m)))))%nat = false)
  \/ (csv (machine_of (fst (loop_iter o tty m)))
      = csv m ++ frame_rows_of_buff
                   (frame_buff (machine_of (fst (loop_iter o tty m))))
      /\ (length (csv m)
          <? length (csv (machine_of (fst (loop_iter o tty m)))))%nat = true
      /\ length (frame_buff (machine_of (fst (loop_iter o tty m))))
         = Z.to_nat FRAME_TOTAL_INTS
      /\ word_at (frame_buff (machine_of (fst (loop_iter o tty m)))) 0
         = USB_SOF
      /\ state (machine_of (fst (loop_iter o tty m))) = STATE_FIND_SOF
      /\ read_off (machine_of (fst (loop_iter o tty m))) = 0
      /\ exists e,
           0 <= e < FRAME_TOTAL_INTS
           /\ word_at (frame_buff (machine_of (fst (loop_iter o tty m)))) e
              = USB_EOF_i32).
Proof.
  intros (Hinv & Hsof).
  destruct o as [|k].
  - left. rewrite loop_iter_error. cbn [fst machine_of].
    split; [reflexivity | apply Nat.ltb_irrefl].
  - destruct (loop_iter_cases k tty m (proj1 Hinv)) as (m' & tty' & -> & Hc).
    cbn [fst machine_of].
    pose proof (length_buff_after k tty m Hinv) as Hlb.
    pose proof (taken_bound k tty m (proj1 Hinv)) as (Hb & _).
    destruct Hinv as (Hp & Hl & Hs).
    destruct Hc as [Hz | Hpos Hst Hw | Hpos Hst Hw | Hpos Hst Hw].
    1-3: left; unfold_setters; split; [reflexivity | apply Nat.ltb_irrefl].
    right. rewrite accept_frame_eq. unfold_setters.
    split; [reflexivity|]. split.
    { apply Nat.ltb_lt. rewrite length_app, length_frame_rows_of_buff. lia. }
    split; [exact Hlb|]. split.
    { destruct (state m) eqn:Est.
      - pose proof (Hst eq_refl) as H. rewrite (Hs eq_refl) in H. exact H.
      - destruct (Hsof eq_refl) as (Hp1 & H0).
        unfold buff_after. rewrite word_at_store_0; [exact H0 | exact Hp1 |].
        rewrite Hl. unfold FRAME_TOTAL_INTS in *. lia. }
    split; [reflexivity|]. split; [reflexivity|].
    exists (read_off m + (Z.of_nat (taken k tty m) - 1)).
    split; [lia | exact Hw].
Qed.

(** X1.  After any reads on any words the state is [STATE_FIND_SOF] exactly
    when the offset is 0, and while it is [STATE_FIND_EOF] slot 0 of the
    buffer holds the start word.  Whatever the next read brings, the
    iteration either leaves the file as it is or adds exactly the 1250 rows
    of the buffer as it stands after that read, a buffer of 1253 words that
    begins with the start word and holds the end word: no buffer is
    accumulated, and none accepted, that does not begin with the start
    word. *)
Theorem state_follows_offset
        (sched : list offer) (tty : list Z) (o : offer) :
  (state (machine_of (fst (main_loop sched tty init))) = STATE_FIND_SOF
   <-> read_off (machine_of (fst (main_loop sched tty init))) = 0)
  /\ (state (machine_of (fst (main_loop sched tty init))) = STATE_FIND_EOF
      -> word_at (frame_buff (machine_of (fst (main_loop sched tty init)))) 0
         = USB_SOF)
  /\ (csv (machine_of (fst (main_loop (sched ++ [o]) tty init)))
      = csv (machine_of (fst (main_loop sched tty init)))
      \/ (csv (machine_of (fst (main_loop (sched ++ [o]) tty init)))
          = csv (machine_of (fst (main_loop sched tty init)))
            ++ frame_rows_of_buff
                 (frame_buff
                    (machine_of (fst (main_loop (sched ++ [o]) tty init))))
          /\ length (frame_rows_of_buff
                 (frame_buff
                    (machine_of (fst (main_loop (sched ++ [o]) tty init)))))
             = 1250%nat
          /\ length (frame_buff
                 (machine_of (fst (main_loop (sched ++ [o]) tty init))))
             = Z.to_nat FRAME_TOTAL_INTS
          /\ word_at (frame_buff
                 (machine_of (fst (main_loop (sched ++ [o]) tty init)))) 0
             = USB_SOF
          /\ exists e,
               0 <= e < FRAME_TOTAL_INTS
               /\ word_at (frame_buff
                     (machine_of (fst (main_loop (sched ++ [o]) tty init))))
                     e
                  = USB_EOF_i32)).
Proof.
  assert (H0 : sync_inv init).
  { split; [apply inv_init | discriminate]. }
  pose proof (main_loop_sync_inv sched tty init H0) as Hsync.
  rewrite main_loop_app.
  set (m := machine_of (fst (main_loop sched tty init))) in *.
  set (tty' := snd (main_loop sched tty init)).
  split; [|split].
  - destruct Hsync as ((Hp & Hl & Hs) & Hsof). split; [exact Hs|].
    intros E. destruct (state m); [reflexivity|].
    destruct (Hsof eq_refl) as (H1 & _). lia.
  - intros E. apply Hsync, E.
  - rewrite main_loop_cons. cbn [main_loop fst machine_of].
    destruct (loop_iter_csv o tty' m Hsync)
      as [(Hsame & _) | (Hgrow & _ & Hlen & Hfirst & _ & _ & Hend)].
    + left. exact Hsame.
    + right. split; [exact Hgrow|].
      split; [apply length_frame_rows_of_buff|]. auto.
Qed.

(** ** What reaches the file and the error stream *)

Lemma size_check_warning (b : list Z) (p : Z) :
  forallb is_warning (size_check b p) = true
  /\ (length (size_check b p) <= 1)%nat.
Proof. unfold size_check. destruct (negb _); cbn; split; auto. Qed.

Lemma interval_check_warning (l t : Z) :
  forallb is_warning (interval_check l t) = true
  /\ (length (interval_check l t) <= 1)%nat.
Proof.
  unfold interval_check. destruct (negb _); [|cbn; split; auto].
  destruct (negb _); cbn; split; auto.
Qed.

Lemma iter_case_outputs_inv (k : nat) (tty : list Z) (m m' : machine) tty'
      (bufs : list (list Z)) :
  outputs_inv m bufs -> iter_case k tty m m' tty' ->
  exists bufs', outputs_inv m' bufs'
                /\ (bufs' = bufs \/ exists b, bufs' = bufs ++ [b]).
Proof.
  intros (Hcsv & Hw & Hlen) Hc.
  destruct Hc as [Hz | Hpos Hst Hwd | Hpos Hst Hwd | Hpos Hst Hwd].
  1-3: exists bufs; split; [|left; reflexivity];
    unfold outputs_inv; unfold_setters; auto.
  exists (bufs ++ [buff_after k tty m]). split; [|right; eauto].
  unfold outputs_inv. unfold_setters.
  destruct (size_check_warning (buff_after k tty m)
              (read_off m + (Z.of_nat (taken k tty m) - 1))) as (S1 & S2).
  destruct (interval_check_warning (last_frame_timestamp m)
              (to_uint32 (word_at (buff_after k tty m) 1))) as (I1 & I2).
  split; [|split].
  - rewrite Hcsv, map_app, concat_app. cbn [map concat].
    rewrite app_nil_r. reflexivity.
  - rewrite !forallb_app, Hw, S1, I1. reflexivity.
  - rewrite !length_app. cbn [length]. lia.
Qed.

Lemma main_loop_outputs_inv (sched : list offer) :
  forall tty m bufs,
    0 <= read_off m <= FRAME_TOTAL_INTS ->
    inv m ->
    outputs_inv m bufs ->
    exists more,
      outputs_inv (machine_of (fst (main_loop sched tty m))) (bufs ++ more).
Proof.
  induction sched as [|o sched IH]; intros tty m bufs Hp Hinv Hout.
  - exists []. rewrite app_nil_r. exact Hout.
  - rewrite main_loop_cons. destruct o as [|k].
    + rewrite loop_iter_error. cbn [fst snd machine_of].
      apply IH; [exact Hp | exact Hinv | exact Hout].
    + destruct (loop_iter_cases k tty m Hp) as (m' & tty' & Hli & Hc).
      rewrite Hli. cbn [fst snd machine_of].
      pose proof (iter_case_inv _ _ _ _ _ Hinv Hc) as Hinv'.
      destruct (iter_case_outputs_inv _ _ _ _ _ _ Hout Hc)
        as (bufs' & Hout' & [-> | (b & ->)]).
      * apply IH; [apply Hinv' | exact Hinv' | exact Hout'].
      * destruct (IH tty' m' (bufs ++ [b]) (proj1 Hinv') Hinv' Hout')
          as (more & Hm).
        exists (b :: more). rewrite <- app_assoc in Hm. exact Hm.
Qed.

Lemma length_concat_rows (bufs : list (list Z)) :
  length (concat (map frame_rows_of_buff bufs)) = (1250 * length bufs)%nat.
Proof.
  induction bufs as [|b bufs IH]; [reflexivity|].
  cbn [map concat length]. rewrite length_app, IH, length_frame_rows_of_buff.
  lia.
Qed.

Lemma length_csv_samples_rows (bufs : list (list Z)) :
  length (csv_samples (concat (map frame_rows_of_buff bufs)))
  = (1250 * length bufs)%nat.
Proof.
  induction bufs as [|b bufs IH]; [reflexivity|].
  cbn [map concat]. rewrite csv_samples_app, length_app, IH.
  rewrite frame_rows_of_buff_closed. unfold rows_closed.
  rewrite csv_samples_rows, length_map, length_seq.
  cbn [length]. lia.
Qed.

Lemma outputs_inv_init : outputs_inv init [].
Proof. unfold outputs_inv. cbn. repeat split. lia. Qed.

Lemma csv_samples_buffers (bufs : list (list Z)) :
  Forall (fun b => length b = Z.to_nat FRAME_TOTAL_INTS) bufs ->
  csv_samples (concat (map frame_rows_of_buff bufs))
  = concat (map (fun b => firstn 1250 (skipn 2 b)) bufs).
Proof.
  induction 1 as [|b bufs Hb _ IH]; [reflexivity|].
  cbn [map concat]. rewrite csv_samples_app, IH,
    (csv_samples_rows_of_buff b Hb). reflexivity.
Qed.

(** The file grows by the rows of the buffers held when it grew. *)
Lemma main_loop_accepted (sched : list offer) :
  forall (tty : list Z) (m : machine),
    sync_inv m ->
    csv (machine_of (fst (main_loop sched tty m)))
    = csv m ++ concat (map frame_rows_of_buff (accepted_buffers sched tty m))
    /\ Forall (fun b => length b = Z.to_nat FRAME_TOTAL_INTS
                        /\ word_at b 0 = USB_SOF)
              (accepted_buffers sched tty m).
Proof.
  induction sched as [|o sched IH]; intros tty m Hsync.
  - cbn. rewrite app_nil_r. split; [reflexivity | constructor].
  - rewrite main_loop_cons. cbn [accepted_buffers].
    assert (Hsync' : sync_inv (machine_of (fst (loop_iter o tty m)))).
    { pose proof (main_loop_sync_inv [o] tty m Hsync) as H.
      rewrite main_loop_cons in H. exact H. }
    destruct (IH (snd (loop_iter o tty m))
                 (machine_of (fst (loop_iter o tty m))) Hsync') as (A & B).
    destruct (loop_iter_csv o tty m Hsync)
      as [(Hsame & Hlt) | (Hgrow & Hlt & Hlen & Hfirst & _)];
      rewrite Hlt; cbn [app map concat].
    + rewrite A, Hsame. split; [reflexivity | exact B].
    + rewrite A, Hgrow, <- app_assoc. split; [reflexivity|].
      constructor; [split; assumption | exact B].
Qed.

(** X2.  After any reads on any words the lines printed to the CSV stream are
    the header followed by the rows of the buffers the loop held each time it
    printed, in that order and whole: 1250 rows for each, their data column
    being slots 2 to 1251 of that buffer, which has 1253 words and begins
    with the start word.  No other line is printed and no buffer is printed
    in part. *)
Theorem csv_is_header_then_whole_frames (sched : list offer) (tty : list Z) :
  csv (machine_of (fst (main_loop sched tty init)))
  = CsvHeader
    :: concat (map frame_rows_of_buff (accepted_buffers sched tty init))
  /\ csv_samples (csv (machine_of (fst (main_loop sched tty init))))
     = concat (map (fun b => firstn 1250 (skipn 2 b))
                   (accepted_buffers sched tty init))
  /\ length (csv (machine_of (fst (main_loop sched tty init))))
     = (1 + 1250 * length (accepted_buffers sched tty init))%nat
  /\ length (csv_samples (csv (machine_of (fst (main_loop sched tty init)))))
     = (1250 * length (accepted_buffers sched tty init))%nat
  /\ Forall (fun b => length b = Z.to_nat FRAME_TOTAL_INTS
                      /\ word_at b 0 = USB_SOF)
            (accepted_buffers sched tty init).
Proof.
  assert (H0 : sync_inv init).
  { split; [apply inv_init | discriminate]. }
  destruct (main_loop_accepted sched tty init H0) as (Hcsv & Hall).
  change (csv init ++ ?r) with (CsvHeader :: r) in Hcsv.
  rewrite Hcsv.
  change (csv_samples (CsvHeader :: ?r)) with (csv_samples r).
  split; [reflexivity|]. split; [|split; [|split]].
  - apply csv_samples_buffers.
    apply Forall_impl with (2 := Hall). intros b (Hb & _). exact Hb.
  - cbn [length]. rewrite length_concat_rows. reflexivity.
  - apply length_csv_samples_rows.
  - exact Hall.
Qed.

(** X3.  After any reads on any words the error stream holds warnings only
    (size mismatch, interval mismatch), never one of the two error messages,
    and at most two of them for every 1250 rows written. *)
Theorem stderr_holds_warnings_only (sched : list offer) (tty : list Z) :
  forallb is_warning (err (machine_of (fst (main_loop sched tty init)))) = true
  /\ (1250 * length (err (machine_of (fst (main_loop sched tty init))))
      <= 2 * length (csv_samples
                       (csv (machine_of (fst (main_loop sched tty init))))))%nat.
Proof.
  destruct (main_loop_outputs_inv sched tty init [] (proj1 inv_init) inv_init
              outputs_inv_init) as (bufs & Hcsv & Hw & Hlen).
  cbn [app] in *. split; [exact Hw|].
  rewrite Hcsv.
  change (csv_samples (CsvHeader :: ?r)) with (csv_samples r).
  rewrite length_csv_samples_rows. lia.
Qed.

(** ** A frame that ends early, and what the buffer still held *)

(** X4.  A short frame (start word first, end word last, 2 to 1252 words)
    that arrives in one read at slot 0 is accepted at once.  Its 1250 rows
    carry its own words from slot 2 on, the end word included, and after them
    what the buffer held before from that slot on: the samples of an earlier
    frame are written again. *)
Theorem short_frame_rows_repeat_old_buffer
        (short rest : list Z) (m : machine) :
  at_start m ->
  (2 <= length short <= 1252)%nat ->
  nth 0 short 0 = USB_SOF ->
  nth (length short - 1) short 0 = USB_EOF_i32 ->
  exists m',
    loop_iter (Ready (length short)) (short ++ rest) m = (Running m', rest)
    /\ csv m' = csv m ++ frame_rows_of_buff
                           (short ++ skipn (length short) (frame_buff m))
    /\ csv_samples (frame_rows_of_buff
                      (short ++ skipn (length short) (frame_buff m)))
       = firstn 1250 (skipn 2 short ++ skipn (length short) (frame_buff m))
    /\ at_start m'.
Proof.
  intros Hst Hlen Hsof Heof.
  pose proof (at_start_inv m Hst) as Hinv.
  destruct Hst as (Hp & Hstate & Hl).
  assert (Hn : taken (length short) (short ++ rest) m = (length short)).
  { unfold taken, FRAME_TOTAL_INTS. rewrite Hp, length_app. lia. }
  assert (Hb : buff_after (length short) (short ++ rest) m
               = short ++ skipn (length short) (frame_buff m)).
  { unfold buff_after, store. rewrite Hn, Hp.
    rewrite firstn_app, (firstn_all short).
    replace (length short - length short)%nat with O by lia.
    cbn [firstn Z.to_nat app Nat.add]. rewrite app_nil_r. reflexivity. }
  assert (Ht : skipn (length short) (short ++ rest) = rest).
  { rewrite skipn_app, (skipn_all short).
    replace (length short - length short)%nat with O by lia. reflexivity. }
  assert (Hlb : length (short ++ skipn (length short) (frame_buff m))
                = Z.to_nat FRAME_TOTAL_INTS).
  { rewrite <- Hb. apply length_buff_after, Hinv. }
  destruct (loop_iter_cases (length short) (short ++ rest) m (proj1 Hinv))
    as (m' & tty' & Hli & Hc).
  rewrite Hli.
  destruct Hc as [Hz | Hpos Hs Hw | Hpos Hs Hw | Hpos Hs Hw].
  - lia.
  - exfalso. apply Hw. rewrite Hb, Hp. unfold word_at. cbn [Z.to_nat].
    rewrite app_nth1 by lia. exact Hsof.
  - exfalso. apply Hw. rewrite Hb, Hn, Hp.
    replace (0 + (Z.of_nat (length short) - 1)) with (Z.of_nat ((length short) - 1)) by lia.
    rewrite word_at_of_nat, app_nth1 by lia. exact Heof.
  - rewrite Hb, Hn, Ht. eexists. split; [reflexivity|].
    rewrite accept_frame_eq. unfold_setters.
    split; [reflexivity|]. split.
    + rewrite csv_samples_rows_of_buff by exact Hlb.
      rewrite skipn_app.
      replace (2 - length short)%nat with O by lia.
      reflexivity.
    + unfold at_start. cbn [read_off state frame_buff]. auto.
Qed.

Lemma short_frame_rows_repeat_old_buffer_witness :
  exists m',
    loop_iter (Ready 5) ([USB_SOF; 200; 7; 8; USB_EOF_i32] ++ [9])
              after_ramp_frame = (Running m', [9])
    /\ firstn 6 (skipn 1250 (csv_samples (csv m'))) =
       [7; 8; USB_EOF_i32; 4; 5; 6].
Proof.
  destruct (short_frame_rows_repeat_old_buffer
              [USB_SOF; 200; 7; 8; USB_EOF_i32] [9] after_ramp_frame)
    as (m' & Hli & Hcsv & Hrows & _).
  - repeat split; vm_compute; reflexivity.
  - cbn [length]. lia.
  - reflexivity.
  - reflexivity.
  - exists m'. split; [exact Hli|].
    rewrite Hcsv, csv_samples_app, Hrows. vm_compute. reflexivity.
Defined.

(** ** A read that does not begin with the start word *)

(** X5.  While the start word is awaited, a read whose first word is not the
    start word is dropped whole, up to the 1253 words the buffer takes:
    nothing is printed, the state and the offset stay, and whatever the
    later words of that read were, a start word or a whole frame among them,
    they are gone. *)
Theorem read_not_starting_with_sof_is_dropped
        (k : nat) (w : Z) (ws : list Z) (m : machine) :
  at_start m ->
  w <> USB_SOF ->
  (0 < k)%nat ->
  exists m',
    loop_iter (Ready k) (w :: ws) m
    = (Running m', skipn (Nat.min k 1253) (w :: ws))
    /\ at_start m'
    /\ same_out m m'
    /\ slept m' = slept m.
Proof.
  intros Hst Hw Hk.
  pose proof (at_start_inv m Hst) as Hinv.
  destruct Hst as (Hp & Hstate & Hl).
  assert (Hpos : (0 < taken k (w :: ws) m)%nat).
  { unfold taken, FRAME_TOTAL_INTS. rewrite Hp. cbn [length]. lia. }
  assert (Ht : skipn (taken k (w :: ws) m) (w :: ws)
               = skipn (Nat.min k 1253) (w :: ws)).
  { unfold taken, FRAME_TOTAL_INTS. rewrite Hp.
    change (Z.to_nat (1253 - 0)) with 1253%nat.
    rewrite Nat.min_assoc. apply skipn_min_length. }
  destruct (loop_iter_cases k (w :: ws) m (proj1 Hinv))
    as (m' & tty' & Hli & Hc).
  rewrite Hli.
  destruct Hc as [Hz | _ Hs Hwd | _ Hs Hwd | _ Hs Hwd].
  - lia.
  - rewrite Ht. eexists. split; [reflexivity|].
    unfold at_start, same_out. unfold_setters.
    repeat split; auto. apply length_buff_after, Hinv.
  - exfalso. apply Hw. rewrite <- (Hs Hstate), Hp.
    symmetry. apply buff_after_head; assumption.
  - exfalso. apply Hw. rewrite <- (Hs Hstate), Hp.
    symmetry. apply buff_after_head; assumption.
Qed.

Lemma read_not_starting_with_sof_is_dropped_witness :
  exists m',
    loop_iter (Ready 2000) (0 :: frame_words (ramp_frame 100)) init
    = (Running m', [USB_EOF_i32])
    /\ csv m' = [CsvHeader].
Proof.
  destruct (read_not_starting_with_sof_is_dropped
              2000 0 (frame_words (ramp_frame 100)) init)
    as (m' & Hli & _ & (Hcsv & _) & _).
  - repeat split.
  - discriminate.
  - lia.
  - exists m'. split; [|exact Hcsv].
    rewrite Hli. f_equal.
Defined.

(** * The command line *)

Lemma nth_error_middle {A} (pre : list A) (x : A) (r : list A) :
  nth_error (pre ++ x :: r) (length pre) = Some x.
Proof.
  rewrite nth_error_app2 by lia. rewrite Nat.sub_diag. reflexivity.
Qed.

Lemma nth_middle_next {A} (pre : list A) (x y : A) (r : list A) (d : A) :
  nth (S (length pre)) (pre ++ x :: y :: r) d = y.
Proof.
  rewrite app_nth2 by lia.
  replace (S (length pre) - length pre)%nat with 1%nat by lia. reflexivity.
Qed.

Lemma is_flag_false (s : string) :
  is_flag s = false -> String.eqb s "-p" = false /\ String.eqb s "-o" = false.
Proof. unfold is_flag. intros H. apply orb_false_elim in H. exact H. Qed.

Lemma length_items_words (ts : list arg_item) :
  (length ts <= length (flat_map item_words ts))%nat.
Proof.
  induction ts as [|t ts IH]; [cbn; lia|].
  cbn [flat_map length]. rewrite length_app.
  destruct t; cbn [item_words length]; lia.
Qed.

(** The loop takes one iteration per item. *)
Lemma parse_loop_items (ts : list arg_item) :
  forall (pre tail : list string) (a : my_args_t) (f : nat)
         (argv : list string) (i : nat),
    forallb item_ok ts = true ->
    argv = pre ++ flat_map item_words ts ++ tail ->
    i = length pre ->
    parse_loop (length ts + f) argv i a
    = parse_loop f argv (i + length (flat_map item_words ts))
                 (fold_left apply_item ts a).
Proof.
  induction ts as [|t ts IH]; intros pre tail a f argv i Hok Hargv Hi.
  - cbn. rewrite Nat.add_0_r. reflexivity.
  - cbn [forallb] in Hok. apply andb_prop in Hok as [Ht Hok].
    cbn [flat_map] in Hargv. rewrite <- app_assoc in Hargv.
    cbn [length Nat.add parse_loop fold_left flat_map].
    assert (Hlt : (i <? length argv)%nat = true).
    { apply Nat.ltb_lt. subst. rewrite !length_app.
      destruct t; cbn [item_words length]; lia. }
    rewrite Hlt. unfold flag_test.
    destruct t as [v | v | s]; cbn [item_words app] in Hargv.
    + assert (Hnth : nth_error argv i = Some "-p"%string)
        by (subst; apply nth_error_middle).
      rewrite Hnth. cbn [String.eqb Ascii.eqb Bool.eqb andb].
      assert (Hlt2 : (S i <? length argv)%nat = true).
      { apply Nat.ltb_lt. subst. rewrite !length_app. cbn [length]. lia. }
      rewrite Hlt2.
      assert (Hv : nth (S i) argv EmptyString = v)
        by (subst; apply nth_middle_next).
      rewrite Hv.
      rewrite (IH (pre ++ ["-p"%string; v]) tail (set_tty_dev v a) f argv
                  (S (S i)) Hok).
      * rewrite length_app. cbn [length item_words apply_item].
        f_equal. lia.
      * subst. rewrite <- app_assoc. reflexivity.
      * subst. rewrite length_app. cbn [length]. lia.
    + assert (Hnth : nth_error argv i = Some "-o"%string)
        by (subst; apply nth_error_middle).
      rewrite Hnth. cbn [String.eqb Ascii.eqb Bool.eqb andb].
      rewrite Hnth. cbn [String.eqb Ascii.eqb Bool.eqb andb].
      assert (Hlt2 : (S i <? length argv)%nat = true).
      { apply Nat.ltb_lt. subst. rewrite !length_app. cbn [length]. lia. }
      rewrite Hlt2.
      assert (Hv : nth (S i) argv EmptyString = v)
        by (subst; apply nth_middle_next).
      rewrite Hv.
      rewrite (IH (pre ++ ["-o"%string; v]) tail (set_o_csv_file v a) f argv
                  (S (S i)) Hok).
      * rewrite length_app. cbn [length item_words apply_item].
        f_equal. lia.
      * subst. rewrite <- app_assoc. reflexivity.
      * subst. rewrite length_app. cbn [length]. lia.
    + assert (Hnth : nth_error argv i = Some s)
        by (subst; apply nth_error_middle).
      cbn [item_ok] in Ht. apply negb_true_iff, is_flag_false in Ht.
      destruct Ht as [Hp Ho].
      rewrite Hnth, Hp, Hnth, Ho.
      rewrite (IH (pre ++ [s]) tail a f argv (S i) Hok).
      * rewrite length_app. cbn [length item_words apply_item].
        f_equal. lia.
      * subst. rewrite <- app_assoc. reflexivity.
      * subst. rewrite length_app. cbn [length]. lia.
Qed.

Lemma parse_arg_items_tail (prog : string) (ts : list arg_item)
      (tail : list string) :
  forallb item_ok ts = true ->
  exists f,
    (f = 2 + length (flat_map item_words ts ++ tail) - length ts)%nat
    /\ parse_arg (prog :: flat_map item_words ts ++ tail)
       = parse_loop f (prog :: flat_map item_words ts ++ tail)
                    (1 + length (flat_map item_words ts))
                    (fold_left apply_item ts default_args).
Proof.
  intros Hok. eexists. split; [reflexivity|].
  unfold parse_arg.
  pose proof (length_items_words ts) as Hl.
  replace (S (length (prog :: flat_map item_words ts ++ tail)))
    with (length ts
          + (2 + length (flat_map item_words ts ++ tail) - length ts))%nat
    by (cbn [length]; rewrite length_app; lia).
  apply (parse_loop_items ts [prog] tail); auto.
Qed.

Lemma parse_loop_end (f : nat) (argv : list string) (i : nat)
      (a : my_args_t) :
  (length argv <= i)%nat -> parse_loop (S f) argv i a = Parsed a.
Proof.
  intros H. cbn [parse_loop].
  replace (i <? length argv)%nat with false
    by (symmetry; apply Nat.ltb_ge; lia).
  reflexivity.
Qed.

Lemma parse_loop_last_o (f : nat) (pre : list string) (a : my_args_t) :
  parse_loop (S (S f)) (pre ++ ["-o"%string]) (length pre) a = Parsed a.
Proof.
  cbn [parse_loop]. unfold flag_test.
  rewrite nth_error_middle. cbn [String.eqb Ascii.eqb Bool.eqb andb].
  rewrite nth_error_middle. cbn [String.eqb Ascii.eqb Bool.eqb andb].
  rewrite length_app. cbn [length].
  replace (length pre <? length pre + 1)%nat with true
    by (symmetry; apply Nat.ltb_lt; lia).
  replace (S (length pre) <? length pre + 1)%nat with false
    by (symmetry; apply Nat.ltb_ge; lia).
  replace (S (S (length pre)) <? length pre + 1)%nat with false
    by (symmetry; apply Nat.ltb_ge; lia).
  reflexivity.
Qed.

Lemma parse_loop_last_p (f : nat) (pre : list string) (a : my_args_t) :
  parse_loop (S f) (pre ++ ["-p"%string]) (length pre) a = NullStrcmp.
Proof.
  cbn [parse_loop]. unfold flag_test.
  rewrite nth_error_middle. cbn [String.eqb Ascii.eqb Bool.eqb andb].
  rewrite length_app. cbn [length].
  replace (length pre <? length pre + 1)%nat with true
    by (symmetry; apply Nat.ltb_lt; lia).
  replace (S (length pre) <? length pre + 1)%nat with false
    by (symmetry; apply Nat.ltb_ge; lia).
  assert (Hnone : nth_error (pre ++ ["-p"%string]) (S (length pre)) = None).
  { apply nth_error_None. rewrite length_app. cbn [length]. lia. }
  rewrite Hnone. reflexivity.
Qed.

(** The three ways a command line can end, after its items. *)
Lemma parse_arg_after_items (prog : string) (ts : list arg_item) :
  forallb item_ok ts = true ->
  parse_arg (prog :: flat_map item_words ts)
  = Parsed (fold_left apply_item ts default_args)
  /\ parse_arg (prog :: flat_map item_words ts ++ ["-o"%string])
     = Parsed (fold_left apply_item ts default_args)
  /\ parse_arg (prog :: flat_map item_words ts ++ ["-p"%string])
     = NullStrcmp.
Proof.
  intros Hok.
  pose proof (length_items_words ts) as Hl.
  split; [|split].
  - destruct (parse_arg_items_tail prog ts [] Hok) as (f & Hf & Hrun).
    rewrite app_nil_r in *. rewrite Hrun.
    destruct f as [|f]; [lia|].
    apply parse_loop_end. cbn [length]. lia.
  - destruct (parse_arg_items_tail prog ts ["-o"%string] Hok)
      as (f & Hf & Hrun).
    rewrite Hrun. rewrite length_app in Hf. cbn [length] in Hf.
    destruct f as [|[|f]]; try lia.
    apply (parse_loop_last_o f (prog :: flat_map item_words ts)).
  - destruct (parse_arg_items_tail prog ts ["-p"%string] Hok)
      as (f & Hf & Hrun).
    rewrite Hrun. rewrite length_app in Hf. cbn [length] in Hf.
    destruct f as [|f]; try lia.
    apply (parse_loop_last_p f (prog :: flat_map item_words ts)).
Qed.

(** X6.  A command line made of port options, output options and words that
    are neither [-p] nor [-o]: [parse_arg] ends and gives what the options
    set from left to right over the defaults.  The last option of a kind
    wins, and the word after an option is taken as its value whatever it is,
    an option word included. *)
Theorem parse_arg_reads_options (prog : string) (ts : list arg_item) :
  forallb item_ok ts = true ->
  parse_arg (prog :: flat_map item_words ts)
  = Parsed (fold_left apply_item ts default_args).
Proof.
  intros Hok.
  destruct (parse_arg_after_items prog ts Hok) as (H & _).
  exact H.
Qed.

Lemma parse_arg_reads_options_witness :
  parse_arg ["read_cdc"; "-o"; "a.csv"; "x"; "-p"; "-o"; "-p"; "/dev/ttyACM1";
             "-o"; "b.csv"]%string
  = Parsed {| tty_dev := "/dev/ttyACM1"; o_csv_file := "b.csv" |}.
Proof.
  apply (parse_arg_reads_options "read_cdc"
           [OutputOption "a.csv"; OtherWord "x"; PortOption "-o";
            PortOption "/dev/ttyACM1"; OutputOption "b.csv"]).
  reflexivity.
Defined.

(** X7.  An option word left without a value at the end of such a command
    line: a last [-o] is passed over and changes nothing, but after a last
    [-p] the test of line 57 hands [argv[argc]], a null pointer, to
    [strcmp]. *)
Theorem parse_arg_option_without_value (prog : string) (ts : list arg_item) :
  forallb item_ok ts = true ->
  parse_arg (prog :: flat_map item_words ts ++ ["-o"%string])
  = Parsed (fold_left apply_item ts default_args)
  /\ parse_arg (prog :: flat_map item_words ts ++ ["-p"%string])
     = NullStrcmp.
Proof.
  intros Hok.
  destruct (parse_arg_after_items prog ts Hok) as (_ & Ho & Hp).
  split; [exact Ho | exact Hp].
Qed.

Lemma parse_arg_option_without_value_witness :
  parse_arg ["read_cdc"; "-p"; "/dev/ttyUSB0"; "-o"]%string
  = Parsed {| tty_dev := "/dev/ttyUSB0"; o_csv_file := "vibration_data.csv" |}
  /\ parse_arg ["read_cdc"; "-p"; "/dev/ttyUSB0"; "-p"]%string = NullStrcmp.
Proof.
  apply (parse_arg_option_without_value "read_cdc" [PortOption "/dev/ttyUSB0"]).
  reflexivity.
Defined.

(** Every list of words is a list of items, with or without an option word
    left over at the end. *)
Lemma words_are_items (n : nat) :
  forall l : list string,
    (length l <= n)%nat ->
    exists ts,
      forallb item_ok ts = true
      /\ (l = flat_map item_words ts
          \/ l = flat_map item_words ts ++ ["-o"%string]
          \/ l = flat_map item_words ts ++ ["-p"%string]).
Proof.
  induction n as [|n IH]; intros l Hl.
  - destruct l; [|cbn in Hl; lia]. exists []. auto.
  - destruct l as [|s l]; [exists []; auto|].
    destruct (String.eqb_spec s "-p") as [-> | Hp].
    + destruct l as [|v l]; [exists []; auto|].
      destruct (IH l) as (ts & Hok & Hts); [cbn in Hl; lia|].
      exists (PortOption v :: ts). split; [exact Hok|].
      cbn [flat_map item_words app].
      destruct Hts as [-> | [-> | ->]]; auto.
    + destruct (String.eqb_spec s "-o") as [-> | Ho].
      * destruct l as [|v l]; [exists []; auto|].
        destruct (IH l) as (ts & Hok & Hts); [cbn in Hl; lia|].
        exists (OutputOption v :: ts). split; [exact Hok|].
        cbn [flat_map item_words app].
        destruct Hts as [-> | [-> | ->]]; auto.
      * destruct (IH l) as (ts & Hok & Hts); [cbn in Hl; lia|].
        exists (OtherWord s :: ts). split.
        -- cbn [forallb item_ok]. unfold is_flag.
           apply String.eqb_neq in Hp, Ho. rewrite Hp, Ho, Hok. reflexivity.
        -- cbn [flat_map item_words app].
           destruct Hts as [-> | [-> | ->]]; auto.
Qed.

Lemma parse_arg_cases (argv : list string) :
  (exists a, parse_arg argv = Parsed a)
  \/ (parse_arg argv = NullStrcmp /\ exists l, argv = l ++ ["-p"%string]).
Proof.
  destruct argv as [|prog l].
  - left. exists default_args. reflexivity.
  - destruct (words_are_items (length l) l (Nat.le_refl _))
      as (ts & Hok & [-> | [-> | ->]]).
    + left. eexists. apply (parse_arg_after_items prog ts Hok).
    + left. eexists. apply (parse_arg_after_items prog ts Hok).
    + right. split; [apply (parse_arg_after_items prog ts Hok)|].
      exists (prog :: flat_map item_words ts). reflexivity.
Qed.

(** X8.  [parse_arg] ends on every command line: the loop needs no more than
    [argc] iterations.  It ends with the arguments, or, only when the last
    word is [-p], at a [strcmp] on the null pointer [argv[argc]]. *)
Theorem parse_arg_ends (argv : list string) :
  parse_arg argv <> OutOfFuel
  /\ (parse_arg argv = NullStrcmp ->
      exists l, argv = l ++ ["-p"%string]).
Proof.
  destruct (parse_arg_cases argv) as [(a & Ha) | (Hn & Hl)].
  - rewrite Ha. split; [discriminate | intros H; discriminate H].
  - rewrite Hn. split; [discriminate | intros _; exact Hl].
Qed.

(** * The serial port *)

Lemma testbit_to_uint32 (x i : Z) :
  0 <= i < 32 -> Z.testbit (to_uint32 x) i = Z.testbit x i.
Proof. intros H. unfold to_uint32. apply Z.mod_pow2_bits_low. lia. Qed.

Lemma testbit_to_uint32_high (x i : Z) :
  32 <= i -> Z.testbit (to_uint32 x) i = false.
Proof. intros H. unfold to_uint32. apply Z.mod_pow2_bits_high. lia. Qed.

Lemma bits32_ind (P : Z -> Prop) :
  Forall P (map Z.of_nat (seq 0 32)) -> forall i, 0 <= i < 32 -> P i.
Proof.
  intros H i Hi. rewrite Forall_forall in H. apply H.
  replace i with (Z.of_nat (Z.to_nat i)) by lia.
  apply in_map, in_seq. lia.
Qed.

Lemma testbit_flag_or (c x i : Z) :
  0 <= i < 32 ->
  Z.testbit (flag_or c x) i = Z.testbit c i || Z.testbit x i.
Proof.
  intros H. unfold flag_or. rewrite testbit_to_uint32 by exact H.
  apply Z.lor_spec.
Qed.

Lemma testbit_flag_and_not (c x i : Z) :
  0 <= i < 32 ->
  Z.testbit (flag_and_not c x) i = Z.testbit c i && negb (Z.testbit x i).
Proof.
  intros H. unfold flag_and_not.
  rewrite testbit_to_uint32, Z.land_spec, testbit_to_uint32 by exact H.
  rewrite Z.lnot_spec by lia. reflexivity.
Qed.

Lemma testbit_set_cflag (c i : Z) :
  0 <= i < 32 ->
  Z.testbit (set_cflag c) i
  = (Z.testbit c i && negb (Z.testbit cflag_cleared i))
    || Z.testbit cflag_set i.
Proof.
  intros Hi. unfold set_cflag.
  rewrite !testbit_flag_and_not, !testbit_flag_or, testbit_flag_and_not,
    testbit_flag_or by exact Hi.
  generalize (Z.testbit c i). intros b. revert i Hi.
  destruct b.
  - apply bits32_ind. cbn [map seq Z.of_nat Pos.of_succ_nat Pos.succ].
    repeat (apply Forall_cons; [reflexivity|]). apply Forall_nil.
  - apply bits32_ind. cbn [map seq Z.of_nat Pos.of_succ_nat Pos.succ].
    repeat (apply Forall_cons; [reflexivity|]). apply Forall_nil.
Qed.

Lemma set_cflag_range (c : Z) : 0 <= set_cflag c < 2^32.
Proof.
  unfold set_cflag, flag_and_not at 1, to_uint32 at 1.
  apply Z.mod_pos_bound. lia.
Qed.

Lemma testbit_below_2_32 (x i : Z) :
  0 <= x < 2^32 -> 32 <= i -> Z.testbit x i = false.
Proof.
  intros Hx Hi. rewrite <- (Z.mod_small x (2^32)) by exact Hx.
  apply Z.mod_pow2_bits_high. lia.
Qed.

Lemma land_set_cflag (mask v : Z) :
  mask_check mask v = true ->
  0 <= mask < 2^32 -> 0 <= v < 2^32 ->
  forall c, Z.land (set_cflag c) mask = v.
Proof.
  intros Hchk Hm Hv c. apply Z.bits_inj'. intros i Hi.
  rewrite Z.land_spec.
  destruct (Z.lt_ge_cases i 32) as [Hlt | Hge].
  - rewrite testbit_set_cflag by lia.
    unfold mask_check in Hchk. rewrite forallb_forall in Hchk.
    assert (Hin : In i (map Z.of_nat (seq 0 32))).
    { replace i with (Z.of_nat (Z.to_nat i)) by lia.
      apply in_map, in_seq. lia. }
    specialize (Hchk i Hin). cbn [forallb] in Hchk.
    apply andb_prop in Hchk as [Ht Hf]. apply andb_prop in Hf as [Hf _].
    apply Bool.eqb_prop in Ht, Hf.
    destruct (Z.testbit c i); assumption.
  - rewrite (testbit_below_2_32 mask i Hm Hge),
      (testbit_below_2_32 v i Hv Hge).
    apply andb_false_r.
Qed.

Lemma set_cflag_closed (c : Z) :
  set_cflag c = Z.lor (Z.ldiff (to_uint32 c) cflag_cleared) cflag_set.
Proof.
  apply Z.bits_inj'. intros i Hi.
  rewrite Z.lor_spec, Z.ldiff_spec.
  destruct (Z.lt_ge_cases i 32) as [Hlt | Hge].
  - rewrite testbit_set_cflag, testbit_to_uint32 by lia. reflexivity.
  - rewrite (testbit_below_2_32 _ i (set_cflag_range c) Hge).
    rewrite testbit_to_uint32_high by exact Hge.
    assert (Hs : 0 <= cflag_set < 2^32)
      by (cbv; split; [discriminate | reflexivity]).
    rewrite (testbit_below_2_32 cflag_set i Hs Hge).
    reflexivity.
Qed.

(** X9.  When [open] succeeds, [set_tty] returns its descriptor and gives the
    port these control flags, whatever it had before: CLOCAL and CREAD set,
    the character size CS8, PARENB, CSTOPB and CRTSCTS clear (8 data bits, no
    parity, one stop bit, no hardware flow control), every other bit as it
    was; the input, output and local flag words are zero. *)
Theorem set_tty_gives_raw_8n1 (dev : string) (fd : Z) (t0 : termios) :
  0 <= fd ->
  exists t,
    set_tty dev fd t0
    = {| ts_fd := fd; ts_stderr := []; ts_termios := Some t;
         ts_flushed := true |}
    /\ c_cflag t
       = Z.lor (Z.ldiff (to_uint32 (c_cflag t0)) cflag_cleared) cflag_set
    /\ Z.land (c_cflag t) (Z.lor CLOCAL CREAD) = Z.lor CLOCAL CREAD
    /\ Z.land (c_cflag t) CSIZE = CS8
    /\ Z.land (c_cflag t) PARENB = 0
    /\ Z.land (c_cflag t) CSTOPB = 0
    /\ Z.land (c_cflag t) CRTSCTS = 0
    /\ 0 <= c_cflag t < 2^32
    /\ c_iflag t = 0 /\ c_oflag t = 0 /\ c_lflag t = 0.
Proof.
  intros Hfd. exists (raw_8n1 t0). unfold set_tty.
  destruct (Z.ltb_spec fd 0) as [Hneg | _]; [lia|].
  split; [reflexivity|]. cbn [raw_8n1 c_cflag c_iflag c_oflag c_lflag].
  split; [apply set_cflag_closed|].
  repeat split; try apply set_cflag_range;
    (apply land_set_cflag;
     [reflexivity
     | cbv; split; [discriminate | reflexivity]
     | cbv; split; [discriminate | reflexivity]]).
Qed.

Lemma set_tty_gives_raw_8n1_witness :
  exists t,
    set_tty "/dev/ttyACM0" 3 (mk_termios 0x500 0x5 0x14D 0x8A3B)
    = {| ts_fd := 3; ts_stderr := []; ts_termios := Some t;
         ts_flushed := true |}
    /\ c_cflag t = 0x8BD.
Proof.
  destruct (set_tty_gives_raw_8n1 "/dev/ttyACM0" 3
              (mk_termios 0x500 0x5 0x14D 0x8A3B))
    as (t & Hset & Hc & _); [lia|].
  exists t. split; [exact Hset|]. rewrite Hc. reflexivity.
Defined.

(** X10.  Setting the port up a second time changes nothing: lines 76-84
    applied to their own result give it back, and two ports whose control
    words differ only in the bits the code sets or clears end with the same
    word. *)
Theorem set_tty_settings_idempotent (dev : string) (fd : Z) (t0 t1 : termios) :
  ts_termios (set_tty dev fd (raw_8n1 t0)) = ts_termios (set_tty dev fd t0)
  /\ (Z.ldiff (to_uint32 (c_cflag t0)) (Z.lor cflag_cleared cflag_set)
      = Z.ldiff (to_uint32 (c_cflag t1)) (Z.lor cflag_cleared cflag_set) ->
      ts_termios (set_tty dev fd t0) = ts_termios (set_tty dev fd t1)).
Proof.
  assert (Hidem : forall c, set_cflag (set_cflag c) = set_cflag c).
  { intros c. apply Z.bits_inj'. intros i Hi.
    destruct (Z.lt_ge_cases i 32) as [Hlt | Hge].
    - rewrite !testbit_set_cflag by lia.
      destruct (Z.testbit c i), (Z.testbit cflag_cleared i),
        (Z.testbit cflag_set i); reflexivity.
    - rewrite !(testbit_below_2_32 _ i (set_cflag_range _) Hge).
      reflexivity. }
  split.
  - unfold set_tty. destruct (fd <? 0); [reflexivity|].
    cbn [ts_termios]. unfold raw_8n1. cbn [c_cflag]. rewrite Hidem.
    reflexivity.
  - intros Hsame. unfold set_tty. destruct (fd <? 0); [reflexivity|].
    cbn [ts_termios]. unfold raw_8n1. do 2 f_equal.
    apply Z.bits_inj'. intros i Hi.
    destruct (Z.lt_ge_cases i 32) as [Hlt | Hge].
    + rewrite !testbit_set_cflag by lia.
      apply (f_equal (fun z => Z.testbit z i)) in Hsame.
      rewrite !Z.ldiff_spec, Z.lor_spec, !testbit_to_uint32 in Hsame by lia.
      destruct (Z.testbit (c_cflag t0) i), (Z.testbit (c_cflag t1) i),
        (Z.testbit cflag_cleared i), (Z.testbit cflag_set i);
        try reflexivity; discriminate Hsame.
    + rewrite !(testbit_below_2_32 _ i (set_cflag_range _) Hge).
      reflexivity.
Qed.

Lemma set_tty_settings_idempotent_witness :
  ts_termios (set_tty "/dev/ttyACM0" 3 (mk_termios 1 2 0xCBD 4))
  = ts_termios (set_tty "/dev/ttyACM0" 3 (mk_termios 5 6 0x80000C0D 8)).
Proof.
  apply (set_tty_settings_idempotent "/dev/ttyACM0" 3
           (mk_termios 1 2 0xCBD 4) (mk_termios 5 6 0x80000C0D 8)).
  reflexivity.
Defined.

(** * Set-up and the whole of [main] *)

(** X11.  [main] returns only while it sets up, when [open], [fopen] or
    [calloc] fails: always with status 1, after a message on the error
    stream, and holding nothing (descriptor closed, file closed, no buffer).
    Once the loop is entered, with the port open and set up, the file open
    and the buffer allocated, [main] never returns, whatever is read.  It is
    undefined only when [parse_arg] is. *)
Theorem main_returns_only_from_setup
        (argv : list string) (s : sys) (sched : list offer) (tty : list Z) :
  (forall status p,
      main argv s sched tty = MainReturned status p ->
      status = EXIT_FAILURE
      /\ holds_nothing p
      /\ p_stderr p <> []
      /\ main_setup argv s = StartFailed status p
      /\ (sys_open s < 0 \/ sys_fopen s = false \/ sys_calloc s = false))
  /\ (forall p m tty',
        main argv s sched tty = MainInLoop p m tty' ->
        0 <= sys_open s /\ sys_fopen s = true /\ sys_calloc s = true
        /\ p_tty_fd p = Some (sys_open s)
        /\ p_termios p = Some (raw_8n1 (sys_termios s))
        /\ p_fcsv p <> None
        /\ p_buff p = true
        /\ p_stderr p = []
        /\ p_signals p = [SIGINT; SIGTERM]
        /\ m = machine_of (fst (main_loop sched tty init)))
  /\ (main argv s sched tty = MainUndefined ->
      parse_arg argv = NullStrcmp).
Proof.
  unfold main, main_setup, set_tty.
  destruct (parse_arg_cases argv) as [(a & ->) | (-> & _)].
  2: { repeat split; intros; try discriminate. }
  cbv zeta.
  destruct (Z.ltb_spec (sys_open s) 0) as [Hneg | Hpos];
    cbn [ts_fd ts_stderr ts_termios].
  - change (-1 <? 0) with true. cbv iota.
    repeat split; intros; try discriminate.
    all: match goal with
         | H : MainReturned _ _ = MainReturned _ _ |- _ =>
             injection H as <- <-
         end.
    all: try reflexivity; try discriminate; auto.
  - destruct (Z.ltb_spec (sys_open s) 0) as [Hneg | _]; [lia|].
    destruct (sys_fopen s), (sys_calloc s); cbn [negb].
    4: { repeat split; intros; try discriminate.
         all: match goal with
              | H : MainReturned _ _ = MainReturned _ _ |- _ =>
                  injection H as <- <-
              end.
         all: try reflexivity; try discriminate; auto. }
    3: { repeat split; intros; try discriminate.
         all: match goal with
              | H : MainReturned _ _ = MainReturned _ _ |- _ =>
                  injection H as <- <-
              end.
         all: try reflexivity; try discriminate; auto. }
    2: { repeat split; intros; try discriminate.
         all: match goal with
              | H : MainReturned _ _ = MainReturned _ _ |- _ =>
                  injection H as <- <-
              end.
         all: try reflexivity; try discriminate; auto. }
    rewrite (main_loop_pair sched tty init).
    repeat split; intros; try discriminate.
    all: match goal with
         | H : MainInLoop _ _ _ = MainInLoop _ _ _ |- _ =>
             injection H as <- <- <-
         end.
    all: try reflexivity; try discriminate; auto.
Qed.

Lemma main_returns_only_from_setup_witness :
  main ["read_cdc"; "-o"; "/nowhere/out.csv"]%string
       (mk_sys 3 (mk_termios 0 0 0x14D 0) false true)
       [Ready 1253] (frame_words (ramp_frame 100))
  = MainReturned EXIT_FAILURE
      (mk_process
         [{| tty_dev := "/dev/ttyACM0"; o_csv_file := "/nowhere/out.csv" |}]
         [MsgFailOutput] [SIGINT; SIGTERM] None
         (Some (mk_termios 0 0 0x8BD 0)) None false)
  /\ holds_nothing
       (mk_process
         [{| tty_dev := "/dev/ttyACM0"; o_csv_file := "/nowhere/out.csv" |}]
         [MsgFailOutput] [SIGINT; SIGTERM] None
         (Some (mk_termios 0 0 0x8BD 0)) None false).
Proof.
  split; [vm_compute; reflexivity|].
  refine (proj1 (proj2 (proj1 (main_returns_only_from_setup
            ["read_cdc"; "-o"; "/nowhere/out.csv"]%string
            (mk_sys 3 (mk_termios 0 0 0x14D 0) false true)
            [Ready 1253] (frame_words (ramp_frame 100))) _ _ _))).
  vm_compute. reflexivity.
Defined.

(** * The signal handler, for any signal *)

(** X12.  For every signal number from 1 to 127 the handler exits with 128
    plus that number, a status that is neither 0 nor the 1 of a failed
    set-up.  It leaves [fcsv] null: with no file open it closes nothing, with
    one open it writes out what was buffered after what was on disk and
    closes it once, and a second run of the handler closes nothing. *)
Theorem handle_signal_any_signal (sig : Z) (fcsv : option FILE) :
  0 < sig < 128 ->
  ex_status (handle_signal sig fcsv) = 128 + sig
  /\ ex_status (handle_signal sig fcsv) <> EXIT_SUCCESS
  /\ ex_status (handle_signal sig fcsv) <> EXIT_FAILURE
  /\ ex_fcsv (handle_signal sig fcsv) = None
  /\ ex_closed (handle_signal sig fcsv)
     = option_map (fun f => on_disk f ++ buffered f) fcsv
  /\ ex_closed (handle_signal sig (ex_fcsv (handle_signal sig fcsv))) = None.
Proof.
  intros Hsig.
  assert (Hst : exit_status (128 + sig) = 128 + sig).
  { unfold exit_status. change 255 with (Z.ones 8).
    rewrite Z.land_ones by lia. apply Z.mod_small. lia. }
  unfold EXIT_SUCCESS, EXIT_FAILURE.
  destruct fcsv as [f|]; cbn [handle_signal ex_status ex_fcsv ex_closed
                              option_map]; rewrite Hst.
  - repeat split; try lia.
    unfold fclose, fflush. cbn [on_disk buffered].
    rewrite app_nil_r. reflexivity.
  - repeat split; lia.
Qed.

Lemma handle_signal_any_signal_witness :
  ex_status (handle_signal 1 None) = 129
  /\ ex_closed (handle_signal 1 None) = None.
Proof.
  destruct (handle_signal_any_signal 1 None) as (Hs & _ & _ & _ & Hc & _);
    [lia|].
  split; [exact Hs | exact Hc].
Defined.

(** * The interval check, modulo 2^32 *)

(** X13.  With a retained timestamp other than 0, the check of lines 190-196
    is silent exactly when the new timestamp is the retained one plus 100
    modulo 2^32, so a counter that wraps from 2^32 - 1 to 0 raises no
    warning.  A warning carries the difference as [%d] prints it: the value
    in the [int] range congruent to it, negative when the timestamp went
    back by less than 2^31. *)
Theorem interval_check_is_modular (last ts : Z) :
  0 < last < 2^32 ->
  0 <= ts < 2^32 ->
  (interval_check last ts = [] <-> ts = to_uint32 (last + FRAME_INTERVAL))
  /\ (forall d,
        In d (interval_check last ts) ->
        exists g,
          d = WarnIntervalMismatch FRAME_INTERVAL g
          /\ - 2^31 <= g < 2^31
          /\ to_uint32 g = to_uint32 (ts - last)
          /\ g <> FRAME_INTERVAL).
Proof.
  intros Hl Ht. unfold interval_check.
  destruct (Z.eqb_spec last 0) as [E | _]; [lia|]. cbn [negb].
  assert (Hiff : to_uint32 (ts - last) = FRAME_INTERVAL
                 <-> ts = to_uint32 (last + FRAME_INTERVAL)).
  { unfold to_uint32, FRAME_INTERVAL.
    split; intros H; Z.to_euclidean_division_equations; lia. }
  destruct (Z.eqb_spec (to_uint32 (ts - last)) FRAME_INTERVAL) as [E | NE];
    cbn [negb].
  - split; [split; intros _; [apply Hiff, E | reflexivity]|].
    intros d [].
  - split.
    + split; [intros H; discriminate H | intros H; apply Hiff in H; contradiction].
    + intros d [<- | []]. eexists. split; [reflexivity|].
      unfold to_int32, to_uint32, FRAME_INTERVAL in *.
      repeat split; Z.to_euclidean_division_equations; lia.
Qed.

Lemma interval_check_is_modular_witness :
  (interval_check 4294967246 50 = [] <-> 50 = to_uint32 (4294967246 + FRAME_INTERVAL))
  /\ (forall d,
        In d (interval_check 4294967246 50) ->
        exists g,
          d = WarnIntervalMismatch FRAME_INTERVAL g
          /\ - 2^31 <= g < 2^31
          /\ to_uint32 g = to_uint32 (50 - 4294967246)
          /\ g <> FRAME_INTERVAL).
Proof.
  apply (interval_check_is_modular 4294967246 50); lia.
Defined.
